(** * Arena hero chooser: a shallow embedding of [arena_hero_chooser.py]

    The Python module keeps its configuration and the hero catalog in class
    variables of [Team], shared by every instance, and the per-team data in
    instance attributes.  The embedding below follows that layout:

    - Python strings are [string], with [str.split], [str.strip] and the
      iteration of a text file over its lines written out;
    - the insertion-ordered [dict] holding the catalog is an association
      list, because the order of its keys is observable
      ([list(self._possible_heroes.keys())]);
    - exceptions are values of [exn]; a method is a function from the state
      it may mutate to a result and the state it leaves behind, so that the
      state at the point of a [raise] is part of the model;
    - the pseudo-random generator is an input: each call of [random.choice]
      or [random.randint] receives the raw draw it consumes. *)

From Stdlib Require Import Ascii ZArith.
From Stdlib Require String.
From stdpp Require Import base tactics option list numbers sets strings pretty.

Local Open Scope Z_scope.
Local Open Scope nat_scope.

(** ** Exceptions and results *)

Inductive exn : Type :=
  | PathNotSetError
  | FileNotFoundError
  | ValueError
  | KeyError
  | IndexError
  | TypeError
  | AttributeError.

Inductive result (A : Type) : Type :=
  | Ok (a : A)
  | Err (e : exn).
Arguments Ok {A} a.
Arguments Err {A} e.

Definition result_bind {A B} (r : result A) (k : A → result B) : result B :=
  match r with
  | Ok a => k a
  | Err e => Err e
  end.

Definition of_option {A} (e : exn) (o : option A) : result A :=
  match o with
  | Some a => Ok a
  | None => Err e
  end.

(** A method over a mutable state [S]: the state survives an exception. *)
Definition M (S A : Type) : Type := S → result A * S.

Definition ret {S A} (a : A) : M S A := λ s, (Ok a, s).
Definition raise {S A} (e : exn) : M S A := λ s, (Err e, s).
Definition bind {S A B} (m : M S A) (k : A → M S B) : M S B :=
  λ s, match m s with
       | (Ok a, s') => k a s'
       | (Err e, s') => (Err e, s')
       end.
Definition get {S} : M S S := λ s, (Ok s, s).
Definition put {S} (s : S) : M S unit := λ _, (Ok tt, s).
Definition lift {S A} (r : result A) : M S A := λ s, (r, s).

Declare Scope py_scope.
Delimit Scope py_scope with py.
Notation "x <- m ;; k" := (bind m (λ x, k))
  (at level 100, m at next level, right associativity) : py_scope.
Notation "'do' m ;; k" := (bind m (λ _, k))
  (at level 100, m at next level, right associativity) : py_scope.
Notation "x <~ r ;; k" := (result_bind r (λ x, k))
  (at level 100, r at next level, right associativity) : py_scope.

(** ** Python strings *)

Module Str.

Definition snoc (s : string) (c : ascii) : string := s +:+ String c "".

  (** [sep in s] *)
Fixpoint contains (sep s : string) : bool :=
    String.prefix sep s ||
    match s with
    | EmptyString => false
    | String _ s' => contains sep s'
    end.

  (** [c in chars] for a single character *)
Fixpoint mem (c : ascii) (chars : string) : bool :=
    match chars with
    | EmptyString => false
    | String d chars' => Ascii.eqb c d || mem c chars'
    end.

  (** [s.split(sep)] for a non-empty [sep]: the separators are found from
      left to right and do not overlap.  [skip] counts the characters of a
      separator just found that are still to be passed over; [cur] is the
      piece being collected. *)
Fixpoint split_go (sep : string) (skip : nat) (cur s : string) : list string :=
    match s with
    | EmptyString => [cur]
    | String c s' =>
        match skip with
        | S k => split_go sep k cur s'
        | O =>
            if String.prefix sep s
            then cur :: split_go sep (String.length sep - 1) "" s'
            else split_go sep 0 (snoc cur c) s'
        end
    end.

Definition split (sep s : string) : list string := split_go sep 0 "" s.

  (** [s.lstrip(chars)], [s.rstrip(chars)], [s.strip(chars)] *)
Fixpoint lstrip (chars s : string) : string :=
    match s with
    | EmptyString => ""
    | String c s' => if mem c chars then lstrip chars s' else s
    end.

Fixpoint rstrip (chars s : string) : string :=
    match s with
    | EmptyString => ""
    | String c s' =>
        match rstrip chars s' with
        | EmptyString => if mem c chars then "" else String c ""
        | r => String c r
        end
    end.

Definition strip (chars s : string) : string := rstrip chars (lstrip chars s).

Definition newline : ascii := "010"%char.

  (** Iterating over a file opened in text mode: the lines of the decoded
      text, each with its terminating newline, the last one possibly
      without. *)
Fixpoint lines_go (cur s : string) : list string :=
    match s with
    | EmptyString => match cur with EmptyString => [] | _ => [cur] end
    | String c s' =>
        if Ascii.eqb c newline
        then snoc cur c :: lines_go "" s'
        else lines_go (snoc cur c) s'
    end.

Definition lines (text : string) : list string := lines_go "" text.

End Str.

Definition nl : string := String Str.newline "".

(** ** Python lists *)

(** [seq[i]]; an index out of range raises [IndexError]. *)
Definition index {A} (l : list A) (i : nat) : result A :=
  of_option IndexError (l !! i).

(** [l.remove(x)]: drops the first occurrence, [ValueError] when there is
    none. *)
Fixpoint list_remove `{EqDecision A} (x : A) (l : list A) : result (list A) :=
  match l with
  | [] => Err ValueError
  | y :: l' =>
      if decide (x = y) then Ok l'
      else (l'' <~ list_remove x l' ;; Ok (y :: l''))%py
  end.

(** ** The [random] module *)

(** [r] is the raw draw of the generator; the module reduces it to the
    range asked for. *)
Definition randbelow (n r : nat) : nat := r `mod` n.

(** [random.randint(a, b)] *)
Definition randint (a b : Z) (r : nat) : Z :=
  (a + Z.of_nat (randbelow (Z.to_nat (b - a + 1)) r))%Z.

(** [random.choice(seq)]: [IndexError] on an empty sequence. *)
Definition choice {A} (l : list A) (r : nat) : result A :=
  match l with
  | [] => Err IndexError
  | _ => index l (randbelow (length l) r)
  end.

(** ** Insertion-ordered dictionaries with string keys *)

Module Dict.
Section dict.
Context {V : Type}.

  (** [d[k]] *)
Fixpoint get (k : string) (d : list (string * V)) : option V :=
    match d with
    | [] => None
    | (k', v) :: d' => if decide (k = k') then Some v else get k d'
    end.

  (** [k in d] *)
Definition mem (k : string) (d : list (string * V)) : bool :=
    match get k d with
    | Some _ => true
    | None => false
    end.

  (** [d[k] = v]: an existing key keeps its position, a new one goes last. *)
Fixpoint set (k : string) (v : V) (d : list (string * V)) : list (string * V) :=
    match d with
    | [] => [(k, v)]
    | (k', v') :: d' =>
        if decide (k = k') then (k, v) :: d' else (k', v') :: set k v d'
    end.

  (** [del d[k]] for a key that is present *)
Fixpoint del (k : string) (d : list (string * V)) : list (string * V) :=
    match d with
    | [] => []
    | (k', v') :: d' =>
        if decide (k = k') then del k d' else (k', v') :: del k d'
    end.

  (** [list(d.keys())] *)
Definition keys (d : list (string * V)) : list string := d.*1.

  (** The well-formedness of a dictionary: no key occurs twice. *)
Definition wf (d : list (string * V)) : Prop := NoDup (keys d).
End dict.
End Dict.

(** ** The file system *)

(** What [path.isfile] and [open(..., 'r')] see: the text of each regular
    file as text mode decodes it, line ends already turned into newlines.  It is an input of every call that touches it, since files
    may come and go between two calls.  A regular file that [open] cannot
    open or whose bytes do not decode ([OSError], [UnicodeDecodeError]) has
    no text and is not represented: what is proved of a load is proved for
    files that read as text. *)
Definition FileSystem : Type := string → option string.

(** The text behind a path; the empty path names no file. *)
Definition read_file (fs : FileSystem) (p : string) : option string :=
  if decide (p = "") then None else fs p.

(** [path.isfile(p)] *)
Definition isfile (fs : FileSystem) (p : string) : bool :=
  match read_file fs p with
  | Some _ => true
  | None => false
  end.

(** ** Class variables of [Team] *)

Definition Catalog : Type := list (string * list string).

Record ClassVars : Type := mkClassVars {
  _hero_file_path : option string;
  _possible_heroes : option Catalog;
  _team_size : Z;
  _allow_special_class : bool
}.

(** The values given in the class body. *)
Definition class_body : ClassVars :=
  {| _hero_file_path := None;
     _possible_heroes := None;
     _team_size := 3;
     _allow_special_class := true |}.

Definition with_hero_file_path (p : option string) (cv : ClassVars) : ClassVars :=
  {| _hero_file_path := p;
     _possible_heroes := _possible_heroes cv;
     _team_size := _team_size cv;
     _allow_special_class := _allow_special_class cv |}.

Definition with_possible_heroes (c : option Catalog) (cv : ClassVars) : ClassVars :=
  {| _hero_file_path := _hero_file_path cv;
     _possible_heroes := c;
     _team_size := _team_size cv;
     _allow_special_class := _allow_special_class cv |}.

Definition with_team_size (n : Z) (cv : ClassVars) : ClassVars :=
  {| _hero_file_path := _hero_file_path cv;
     _possible_heroes := _possible_heroes cv;
     _team_size := n;
     _allow_special_class := _allow_special_class cv |}.

Definition with_allow_special_class (b : bool) (cv : ClassVars) : ClassVars :=
  {| _hero_file_path := _hero_file_path cv;
     _possible_heroes := _possible_heroes cv;
     _team_size := _team_size cv;
     _allow_special_class := b |}.

(** [cls.get_team_size()] *)
Definition get_team_size (cv : ClassVars) : Z := _team_size cv.

(** [cls.set_hero_file(path_to_file)] *)
Definition set_hero_file (fs : FileSystem) (path_to_file : string) : M ClassVars unit :=
  λ cv,
    if negb (isfile fs path_to_file) then raise FileNotFoundError cv
    else put (with_hero_file_path (Some path_to_file) cv) cv.

(** The [try] block of the loop of [load_heroes] and its [except KeyError]:
    the hero is appended to the list of its class, or starts that list. *)
Definition match_hero (all_heroes : Catalog) (hero_class hero_name : string) : Catalog :=
  match Dict.get hero_class all_heroes with
  | Some l => Dict.set hero_class (l ++ [hero_name]) all_heroes
  | None => Dict.set hero_class [hero_name] all_heroes
  end.

(** The body of the [for line in hero_file] loop of [load_heroes]. *)
Definition load_line (all_heroes : Catalog) (line : string) : result Catalog :=
  (let heroes := Str.split ", " line in
   hero_name <~ index heroes 0 ;;
   field <~ index heroes 1 ;;
   let hero_class := Str.strip nl field in
   Ok (match_hero all_heroes hero_class hero_name))%py.

Fixpoint load_lines (all_heroes : Catalog) (ls : list string) : result Catalog :=
  match ls with
  | [] => Ok all_heroes
  | line :: ls' =>
      (all_heroes' <~ load_line all_heroes line ;; load_lines all_heroes' ls')%py
  end.

(** [not cls._hero_file_path]: [None] and the empty string are falsy. *)
Definition path_unset (p : option string) : bool :=
  match p with
  | None => true
  | Some q => bool_decide (q = "")
  end.

(** [cls.load_heroes()] *)
Definition load_heroes (fs : FileSystem) : M ClassVars unit :=
  λ cv,
    if path_unset (_hero_file_path cv) then raise PathNotSetError cv
    else
      match _hero_file_path cv ≫= read_file fs with
      | None => raise FileNotFoundError cv
      | Some text =>
          match load_lines [] (Str.lines text) with
          | Ok all_heroes => put (with_possible_heroes (Some all_heroes) cv) cv
          | Err e => raise e cv
          end
      end.

(** [cls._possible_heroes and 'Special' in cls._possible_heroes] *)
Definition special_loaded (c : option Catalog) : bool :=
  match c with
  | None => false
  | Some [] => false
  | Some d => Dict.mem "Special" d
  end.

(** [cls.disallow_special()] *)
Definition disallow_special : M ClassVars unit :=
  (cv <- get ;;
   let cv1 := if _allow_special_class cv
              then with_allow_special_class false cv else cv in
   if special_loaded (_possible_heroes cv1)
   then put (with_possible_heroes (Dict.del "Special" <$> _possible_heroes cv1) cv1)
   else put cv1)%py.

(** [cls.set_team_size(team_size)] *)
Definition set_team_size (team_size : Z) : M ClassVars unit :=
  (cv <- get ;;
   if bool_decide (_team_size cv = 3%Z) || bool_decide (_team_size cv = 4%Z)
   then put (with_team_size team_size cv)
   else raise ValueError)%py.

(** ** Instances of [Team] *)

Record Team : Type := mkTeam {
  _name : string;
  _roll : Z;
  _possible_classes : list string;
  _heroes : list string
}.

(** [Team(team_name)]: [__init__] reads and writes the class variables and
    returns the attributes of the new instance; [r] is the draw of the d20. *)
Definition Team_init (fs : FileSystem) (team_name : string) (r : nat) : M ClassVars Team :=
  (cv <- get ;;
   do (match _possible_heroes cv with
       | None => load_heroes fs
       | Some _ => ret tt
       end) ;;
   cv <- get ;;
   do (if negb (_allow_special_class cv)
       then match _possible_heroes cv with
            | None => raise TypeError
            | Some d =>
                if Dict.mem "Special" d
                then put (with_possible_heroes (Some (Dict.del "Special" d)) cv)
                else ret tt
            end
       else ret tt) ;;
   cv <- get ;;
   let roll := randint 1 20 r in
   match _possible_heroes cv with
   | None => raise AttributeError
   | Some d =>
       ret {| _name := team_name;
              _roll := roll;
              _possible_classes := Dict.keys d;
              _heroes := [] |}
   end)%py.

Definition get_name (t : Team) : string := _name t.
Definition get_roll (t : Team) : Z := _roll t.

(** [self.reroll()] *)
Definition reroll (r : nat) (t : Team) : Team :=
  {| _name := _name t;
     _roll := randint 1 20 r;
     _possible_classes := _possible_classes t;
     _heroes := _heroes t |}.

(** [[key for key in self._possible_classes for _ in self._possible_heroes[key]]]:
    the subscript is evaluated once per class, in order. *)
Fixpoint keys_to_choose_from (c : option Catalog) (classes : list string)
    : result (list string) :=
  match classes with
  | [] => Ok []
  | key :: classes' =>
      match c with
      | None => Err TypeError
      | Some d =>
          (hs <~ of_option KeyError (Dict.get key d) ;;
           rest <~ keys_to_choose_from c classes' ;;
           Ok (replicate (length hs) key ++ rest))%py
      end
  end.

(** [self._possible_heroes[key]] *)
Definition subscript (c : option Catalog) (key : string) : result (list string) :=
  match c with
  | None => Err TypeError
  | Some d => of_option KeyError (Dict.get key d)
  end.

(** The two random choices of [choose_hero]: the values of the local
    variables [key] and [hero]. *)
Definition draw (r1 r2 : nat) (cv : ClassVars) (t : Team) : result (string * string) :=
  (ks <~ keys_to_choose_from (_possible_heroes cv) (_possible_classes t) ;;
   key <~ choice ks r1 ;;
   hs <~ subscript (_possible_heroes cv) key ;;
   hero <~ choice hs r2 ;;
   Ok (key, hero))%py.

Definition heroes_append (hero : string) : M (ClassVars * Team) unit :=
  λ '(cv, t),
    (Ok tt, (cv, {| _name := _name t; _roll := _roll t;
                    _possible_classes := _possible_classes t;
                    _heroes := _heroes t ++ [hero] |})).

Definition possible_classes_remove (key : string) : M (ClassVars * Team) unit :=
  λ '(cv, t),
    match list_remove key (_possible_classes t) with
    | Ok l => (Ok tt, (cv, {| _name := _name t; _roll := _roll t;
                              _possible_classes := l;
                              _heroes := _heroes t |}))
    | Err e => (Err e, (cv, t))
    end.

Definition possible_heroes_remove (key hero : string) : M (ClassVars * Team) unit :=
  λ '(cv, t),
    match (hs <~ subscript (_possible_heroes cv) key ;; list_remove hero hs)%py with
    | Ok hs' =>
        (Ok tt, (with_possible_heroes (Dict.set key hs' <$> _possible_heroes cv) cv, t))
    | Err e => (Err e, (cv, t))
    end.

(** [self.choose_hero()], on the class variables and the attributes of
    [self]. *)
Definition choose_hero (r1 r2 : nat) : M (ClassVars * Team) unit :=
  (s <- get ;;
   pick <- lift (draw r1 r2 s.1 s.2) ;;
   let key := pick.1 in
   let hero := pick.2 in
   do heroes_append hero ;;
   do possible_classes_remove key ;;
   possible_heroes_remove key hero)%py.

(** [__lt__], [__gt__], [__eq__] between two teams *)
Definition Team_lt (a b : Team) : bool := bool_decide (_roll a < _roll b)%Z.
Definition Team_gt (a b : Team) : bool := bool_decide (_roll a > _roll b)%Z.
Definition Team_eq (a b : Team) : bool := bool_decide (_roll a = _roll b).

(** ** A session: the class variables and the instances created so far *)

Record Session : Type := mkSession {
  cvars : ClassVars;
  teams : list Team
}.

(** The module just imported: no instance yet. *)
Definition fresh_session : Session := {| cvars := class_body; teams := [] |}.

(** The calls a client of the module can make.  An instance is named by the
    position at which it was created. *)
Inductive op : Type :=
  | SetHeroFile (fs : FileSystem) (path_to_file : string)
  | LoadHeroes (fs : FileSystem)
  | DisallowSpecial
  | SetTeamSize (team_size : Z)
  | NewTeam (fs : FileSystem) (team_name : string) (r : nat)
  | Reroll (i : nat) (r : nat)
  | ChooseHero (i : nat) (r1 r2 : nat).

Definition on_class {A} (m : M ClassVars A) : M Session A :=
  λ s, let '(res, cv) := m (cvars s) in (res, {| cvars := cv; teams := teams s |}).

(** A method of the instance at position [i]; nothing happens when there is
    no such instance. *)
Definition on_team (i : nat) (m : M (ClassVars * Team) unit) : M Session unit :=
  λ s,
    match teams s !! i with
    | None => (Ok tt, s)
    | Some t =>
        let '(res, (cv, t')) := m (cvars s, t) in
        (res, {| cvars := cv; teams := <[i := t']> (teams s) |})
    end.

Definition exec (o : op) : M Session unit :=
  match o with
  | SetHeroFile fs p => on_class (set_hero_file fs p)
  | LoadHeroes fs => on_class (load_heroes fs)
  | DisallowSpecial => on_class disallow_special
  | SetTeamSize n => on_class (set_team_size n)
  | NewTeam fs name r =>
      (t <- on_class (Team_init fs name r) ;;
       λ s, (Ok tt, {| cvars := cvars s; teams := teams s ++ [t] |}))%py
  | Reroll i r => on_team i (λ '(cv, t), (Ok tt, (cv, reroll r t)))
  | ChooseHero i r1 r2 => on_team i (choose_hero r1 r2)
  end.

(** The state after a sequence of calls; an exception is left to the caller
    and the state it leaves is the one the next call sees. *)
Fixpoint run (tr : list op) (s : Session) : Session :=
  match tr with
  | [] => s
  | o :: tr' => run tr' (exec o s).2
  end.

(** What a call drafts: the team, the class and the hero. *)
Definition pick_of (o : op) (s : Session) : option (nat * (string * string)) :=
  match o with
  | ChooseHero i r1 r2 =>
      t ← teams s !! i;
      match draw r1 r2 (cvars s) t with
      | Ok kh => Some (i, kh)
      | Err _ => None
      end
  | _ => None
  end.

Fixpoint picks (tr : list op) (s : Session) : list (nat * (string * string)) :=
  match tr with
  | [] => []
  | o :: tr' => option_list (pick_of o s) ++ picks tr' (exec o s).2
  end.

Definition is_draft (o : op) : Prop :=
  match o with
  | ChooseHero _ _ _ => True
  | _ => False
  end.

(** The heroes still in the catalog, and those on the teams. *)
Definition catalog_heroes (c : option Catalog) : list string :=
  match c with
  | None => []
  | Some d => concat d.*2
  end.

Definition drafted (ts : list Team) : list string := concat (_heroes <$> ts).

(** A class of the team's list with a hero left in the catalog. *)
Definition available (cv : ClassVars) (t : Team) (key : string) : Prop :=
  key ∈ _possible_classes t ∧
  ∃ d h hs, _possible_heroes cv = Some d ∧ Dict.get key d = Some (h :: hs).

(** Every class of the team's list is a key of the catalog. *)
Definition classes_known (cv : ClassVars) (t : Team) : Prop :=
  ∃ d, _possible_heroes cv = Some d ∧
       ∀ key, key ∈ _possible_classes t → is_Some (Dict.get key d).







(** A roll of the d20. *)
Definition roll_ok (t : Team) : Prop := (1 ≤ _roll t ≤ 20)%Z.



(** ** Hero files *)

(** The line of a hero file for a hero and a class field, with or without
    its newline. *)
Definition entry_line (e : string * string) (terminated : bool) : string :=
  e.1 +:+ ", " +:+ e.2 +:+ (if terminated then nl else "").

(** The text of a hero file; only the last line may lack its newline. *)
Fixpoint render (es : list (string * string)) (terminated : bool) : string :=
  match es with
  | [] => ""
  | [e] => entry_line e terminated
  | e :: es' => entry_line e true +:+ render es' terminated
  end.

(** A hero name and a class field that make a line with a single
    delimiter. *)
Definition plain (s : string) : Prop :=
  Str.contains ", " s = false ∧ Str.mem Str.newline s = false.

Definition well_formed (es : list (string * string)) : Prop :=
  Forall (λ e, plain e.1 ∧ plain e.2) es.

(** The elements of a list in the order of their first occurrences. *)
Fixpoint first_occurrences (l : list string) : list string :=
  match l with
  | [] => []
  | x :: l' => x :: filter (λ y, y ≠ x) (first_occurrences l')
  end.

(** The heroes of a class, in the order of the lines. *)
Definition heroes_of (c : string) (es : list (string * string)) : list string :=
  (filter (λ e, e.2 = c) es).*1.

(** The class field as the specification words it: whitespace and the
    newline stripped from both ends ([str.strip()]). *)
Definition whitespace : string :=
  String " " (String "009" (String "010" (String "011" (String "012" (String "013" ""))))).
Definition spec_class_field (field : string) : string := Str.strip whitespace field.

(** ** Sample data for the examples *)

(** A small hero file used by the examples below. *)
Definition heroes_txt : string :=
  "Ann, Warrior" +:+ nl +:+ "Grognak, Special" +:+ nl +:+
  "Bob, Warrior" +:+ nl +:+ "Cid, Mage" +:+ nl.

Definition disk : FileSystem :=
  λ p, if decide (p = "heroes.txt") then Some heroes_txt else None.

Definition no_disk : FileSystem := λ _, None.

Definition configured : ClassVars := with_hero_file_path (Some "heroes.txt") class_body.

(** The catalog of [heroes_txt] and a team created on it. *)
Definition loaded : ClassVars :=
  with_possible_heroes
    (Some [("Warrior", ["Ann"; "Bob"]); ("Special", ["Grognak"]); ("Mage", ["Cid"])])
    configured.
Definition ada : Team :=
  {| _name := "ada"; _roll := 7;
     _possible_classes := ["Warrior"; "Special"; "Mage"]; _heroes := [] |}.

(** A team left with the class Mage only, whose heroes are all taken. *)
Definition spent_vars : ClassVars :=
  with_possible_heroes (Some [("Warrior", ["Bob"]); ("Mage", [])]) configured.
Definition spent_team : Team :=
  {| _name := "ada"; _roll := 7; _possible_classes := ["Mage"]; _heroes := ["Ann"] |}.

(** Two teams created on [heroes_txt], and three calls of [choose_hero]
    made in turn. *)
Definition setup : list op :=
  [SetHeroFile disk "heroes.txt"; NewTeam disk "ada" 6; NewTeam disk "bea" 11].
Definition two_teams : Session := Eval vm_compute in run setup fresh_session.
Definition in_turn : list op := [ChooseHero 0 1 1; ChooseHero 1 0 0; ChooseHero 0 0 0].

(** A hero file in which one name stands on two lines, and two teams
    created on it. *)
Definition twin_txt : string := "Cid, Mage" +:+ nl +:+ "Cid, Rogue" +:+ nl.
Definition twin_disk : FileSystem :=
  λ p, if decide (p = "heroes.txt") then Some twin_txt else None.
Definition twin_setup : list op :=
  [SetHeroFile twin_disk "heroes.txt"; NewTeam twin_disk "ada" 6;
   NewTeam twin_disk "bea" 11].


(** The request made before the catalog is loaded, then two teams, a draft
    each, and a second load once no team lists the class Special. *)
Definition path_only : Session :=
  Eval vm_compute in run [SetHeroFile disk "heroes.txt"] fresh_session.



(** ** Further notions used by the properties of the whole module *)

(** The hero field of a line: [line.split(", ")[0]]. *)
Definition hero_field (line : string) : string :=
  match Str.split ", " line with
  | [] => ""
  | h :: _ => h
  end.

(** The result of each call of a sequence, in order. *)
Fixpoint outcomes (tr : list op) (s : Session) : list (result unit) :=
  match tr with
  | [] => []
  | o :: tr' => (exec o s).1 :: outcomes tr' (exec o s).2
  end.

(** A hero file with a blank line at its end. *)
Definition gapped_txt : string := "Ann, Warrior" +:+ nl +:+ nl.
Definition gapped_disk : FileSystem :=
  λ p, if decide (p = "heroes.txt") then Some gapped_txt else None.

(** What every session keeps true of its dictionary and of the class lists
    of its teams. *)
Definition tidy (s : Session) : Prop :=
  (∀ d, _possible_heroes (cvars s) = Some d → Dict.wf d) ∧
  (∀ t, t ∈ teams s → NoDup (_possible_classes t)) ∧
  (teams s ≠ [] → _possible_heroes (cvars s) ≠ None).

(** A later state of the same team: same name, the heroes it had and
    perhaps more, each hero gained paid with one class of its list. *)
Definition grown (t t' : Team) : Prop :=
  _name t' = _name t ∧
  _heroes t `prefix_of` _heroes t' ∧
  _possible_classes t' `sublist_of` _possible_classes t ∧
  length (_heroes t') + length (_possible_classes t')
    = length (_heroes t) + length (_possible_classes t).

(** The team sizes the module means to allow. *)
Definition size_allowed (n : Z) : Prop := n = 3%Z ∨ n = 4%Z.

(** Every [set_team_size] call of the sequence is given an allowed size. *)
Definition sizes_allowed (tr : list op) : Prop :=
  ∀ k n, tr !! k = Some (SetTeamSize n) → size_allowed n.

(** ** Rendering a team *)

(** [sep.join(l)] *)
Fixpoint join (sep : string) (l : list string) : string :=
  match l with
  | [] => ""
  | [x] => x
  | x :: l' => x +:+ sep +:+ join sep l'
  end.

(** [str(n)] for an integer *)
Definition str_int (n : Z) : string := pretty n.

(** [str(team)], that is [__str__] *)
Definition Team_str (t : Team) : string :=
  _name t +:+ "'s team:" +:+ nl +:+ join nl (_heroes t).

(** The line [print_roll] writes: [print] joins its arguments with a blank
    and ends the line. *)
Definition a_or_an (roll : Z) : string :=
  if bool_decide (roll ∈ [8; 11; 18]%Z) then "an" else "a".

Definition roll_line (t : Team) : string :=
  _name t +:+ " rolled " +:+ a_or_an (_roll t) +:+ " " +:+ str_int (_roll t) +:+ nl.

(** ** The builtins [max] and [min] on two teams *)

(** The builtin keeps its first argument unless the second compares greater
    (for [min], smaller).  The object returned is mutated afterwards, so
    what matters is which of the two it is: [true] stands for the second. *)
Definition max_is_second (a b : Team) : bool := Team_gt b a.
Definition min_is_second (a b : Team) : bool := Team_lt b a.

(** ** The script run under [__main__] *)

(** How a step of the script ends: it returns, or an exception of the
    module comes out of it, or [input] meets the end of the input
    ([EOFError]). *)
Inductive outcome (A : Type) : Type :=
  | Returns (a : A)
  | Raises (e : exn)
  | RaisesEOF.
Arguments Returns {A} a.
Arguments Raises {A} e.
Arguments RaisesEOF {A}.

(** The process: the lines still to be read, what was written so far, the
    number of draws taken from the generator, and the class variables. *)
Record Proc : Type := mkProc {
  stdin : list string;
  stdout : list string;
  cursor : nat;
  cls : ClassVars
}.

Definition P (A : Type) : Type := Proc → outcome A * Proc.

Definition pret {A} (a : A) : P A := λ p, (Returns a, p).
Definition pbind {A B} (m : P A) (k : A → P B) : P B :=
  λ p, match m p with
       | (Returns a, p') => k a p'
       | (Raises e, p') => (Raises e, p')
       | (RaisesEOF, p') => (RaisesEOF, p')
       end.

Notation "x <<- m ;; k" := (pbind m (λ x, k))
  (at level 100, m at next level, right associativity) : py_scope.
Notation "'stmt' m ;; k" := (pbind m (λ _, k))
  (at level 100, m at next level, right associativity) : py_scope.

Definition written (s : string) (p : Proc) : Proc :=
  {| stdin := stdin p; stdout := stdout p ++ [s]; cursor := cursor p; cls := cls p |}.

(** [print(s)] *)
Definition print (s : string) : P unit := λ p, (Returns tt, written (s +:+ nl) p).

(** [input(prompt)]: the prompt is written, a line is read without its
    newline. *)
Definition input (prompt : string) : P string :=
  λ p, match stdin p with
       | [] => (RaisesEOF, written prompt p)
       | l :: ls =>
           (Returns l, {| stdin := ls; stdout := stdout p ++ [prompt];
                          cursor := cursor p; cls := cls p |})
       end.

(** The next raw draw of the generator [rng]. *)
Definition random (rng : nat → nat) : P nat :=
  λ p, (Returns (rng (cursor p)),
        {| stdin := stdin p; stdout := stdout p; cursor := S (cursor p); cls := cls p |}).

Definition with_cls (cv : ClassVars) (p : Proc) : Proc :=
  {| stdin := stdin p; stdout := stdout p; cursor := cursor p; cls := cv |}.

(** A class method called by the script. *)
Definition call {A} (m : M ClassVars A) : P A :=
  λ p, match m (cls p) with
       | (Ok a, cv) => (Returns a, with_cls cv p)
       | (Err e, cv) => (Raises e, with_cls cv p)
       end.

Definition dq : string := String "034" "".

(** [int(num)] for a string of decimal digits, the only kind the script
    passes to it. *)
Definition digit (c : ascii) : option Z :=
  let n := Z.of_nat (nat_of_ascii c) in
  if bool_decide (48 ≤ n ≤ 57)%Z then Some (n - 48)%Z else None.

Fixpoint int_go (acc : Z) (s : string) : result Z :=
  match s with
  | EmptyString => Ok acc
  | String c s' =>
      match digit c with
      | Some v => int_go (10 * acc + v)%Z s'
      | None => Err ValueError
      end
  end.

Definition int (s : string) : result Z :=
  match s with
  | EmptyString => Err ValueError
  | _ => int_go 0 s
  end.

(** The texts of the team-size prompt. *)
Definition size_prompt : string := "Would you like to play with 3 or 4 heroes per team? ".
Definition size_retry : string :=
  "Please enter only " +:+ dq +:+ "3" +:+ dq +:+ " or " +:+ dq +:+ "4" +:+ dq +:+ ".".

(** The [while True] loop asking for the team size.  Each turn reads a
    line, so the loop ends by the end of the input at the latest: [n]
    bounds the turns by the number of lines left. *)
Fixpoint ask_team_size_turns (n : nat) : P unit :=
  (num_heroes <<- input size_prompt ;;
   if bool_decide (num_heroes = "3") || bool_decide (num_heroes = "4")
   then match int num_heroes with
        | Ok size => call (set_team_size size)
        | Err e => λ p, (Raises e, p)
        end
   else
     stmt print size_retry ;;
     stmt print "" ;;
     match n with
     | 0 => pret tt
     | S n' => ask_team_size_turns n'
     end)%py.

Definition ask_team_size : P unit := λ p, ask_team_size_turns (length (stdin p)) p.

(** [s.lower()] on ASCII letters; other characters are left alone.  The
    script only compares the result with the words [y], [yes], [n] and
    [no], and no character outside ASCII lowers to one of their letters, so
    the comparison comes out as with [str.lower]. *)
Definition lower_char (c : ascii) : ascii :=
  let n := nat_of_ascii c in
  if bool_decide (65 ≤ n ≤ 90) then ascii_of_nat (n + 32) else c.

Fixpoint lower (s : string) : string :=
  match s with
  | EmptyString => ""
  | String c s' => String (lower_char c) (lower s')
  end.

(** The [while True] loop asking whether to play with the class Special. *)
Definition special_prompt : string :=
  "Would you like to play with the special class (i.e. The Faceless Emperor)? ".
Definition special_retry : string := "Please enter (y)es or (n)o.".

Fixpoint ask_special_turns (n : nat) : P unit :=
  (answer <<- input special_prompt ;;
   let use_special := lower answer in
   if bool_decide (use_special = "y") || bool_decide (use_special = "yes")
   then pret tt
   else if bool_decide (use_special = "n") || bool_decide (use_special = "no")
   then call disallow_special
   else
     stmt print special_retry ;;
     stmt print "" ;;
     match n with
     | 0 => pret tt
     | S n' => ask_special_turns n'
     end)%py.

Definition ask_special : P unit := λ p, ask_special_turns (length (stdin p)) p.

(** The two names, asked again as long as they are equal. *)
Definition name_1_prompt : string := "Please enter a name for the first team captain: ".
Definition name_2_prompt : string := "Please enter a name for the second team captain: ".
Definition names_retry : string := "Please choose a different name for each team.".

Definition ask_two_names : P (string * string) :=
  (team_1_name <<- input name_1_prompt ;;
   team_2_name <<- input name_2_prompt ;;
   pret (team_1_name, team_2_name))%py.

Fixpoint ask_names_turns (n : nat) (names : string * string) : P (string * string) :=
  if bool_decide (names.1 = names.2)
  then
    (stmt print names_retry ;;
     stmt print "" ;;
     names' <<- ask_two_names ;;
     match n with
     | 0 => pret names'
     | S n' => ask_names_turns n' names'
     end)%py
  else pret names.

Definition ask_names : P (string * string) :=
  (names <<- ask_two_names ;;
   λ p, ask_names_turns (length (stdin p)) names p)%py.

(** [Team(team_name)] in the script, with the file system of the moment.
    [__init__] rolls after the catalog is loaded: a constructor that raises
    has taken no draw. *)
Definition new_team (fs : FileSystem) (rng : nat → nat) (team_name : string) : P Team :=
  λ p, match Team_init fs team_name (rng (cursor p)) (cls p) with
       | (Ok t, cv) =>
           (Returns t, {| stdin := stdin p; stdout := stdout p;
                          cursor := S (cursor p); cls := cv |})
       | (Err e, cv) => (Raises e, with_cls cv p)
       end.

Definition print_roll (t : Team) : P unit :=
  λ p, (Returns tt, written (roll_line t) p).

Definition do_reroll (rng : nat → nat) (t : Team) : P Team :=
  (r <<- random rng ;; pret (reroll r t))%py.

Definition tie_text : string := "Oops. It's a tie! Rolling again...".

(** The loop rolling again while the teams are tied.  It may go on for
    ever; [fuel] bounds its turns and [None] stands for a loop still
    running when the fuel is spent. *)
Fixpoint break_tie (rng : nat → nat) (fuel : nat) (ts : Team * Team)
    : P (option (Team * Team)) :=
  if Team_eq ts.1 ts.2
  then match fuel with
       | 0 => pret None
       | S fuel' =>
           (stmt print "" ;;
            stmt print_roll ts.1 ;;
            stmt print_roll ts.2 ;;
            stmt print tie_text ;;
            team_1 <<- do_reroll rng ts.1 ;;
            team_2 <<- do_reroll rng ts.2 ;;
            break_tie rng fuel' (team_1, team_2))%py
       end
  else pret (Some ts).

(** [max(team_1, team_2).choose_hero()] and the same with [min]: the method
    runs on the team the builtin returns.  A call that returns has made its
    two draws.  A call that raises has made none: the list of line 174 is
    built before any draw, [random.choice] raises on an empty list before
    drawing, and the second choice is made in a list that is not empty. *)
Definition choose_on (second : bool) (rng : nat → nat) (ts : Team * Team)
    : P (Team * Team) :=
  λ p, match choose_hero (rng (cursor p)) (rng (S (cursor p)))
               (cls p, if second then ts.2 else ts.1) with
       | (Ok _, (cv, t)) =>
           (Returns (if second then (ts.1, t) else (t, ts.2)),
            {| stdin := stdin p; stdout := stdout p;
               cursor := S (S (cursor p)); cls := cv |})
       | (Err e, (cv, _)) => (Raises e, with_cls cv p)
       end.

(** The [for i in range(Team.get_team_size())] loop. *)
Fixpoint draft_rounds (rng : nat → nat) (n : nat) (ts : Team * Team) : P (Team * Team) :=
  match n with
  | 0 => pret ts
  | S n' =>
      (ts1 <<- choose_on (max_is_second ts.1 ts.2) rng ts ;;
       ts2 <<- choose_on (min_is_second ts1.1 ts1.2) rng ts1 ;;
       draft_rounds rng n' ts2)%py
  end.

Definition draft (rng : nat → nat) (ts : Team * Team) : P (Team * Team) :=
  λ p, draft_rounds rng (Z.to_nat (get_team_size (cls p))) ts p.

(** The script, by the sections its comments mark.  [fs0] is the file
    system when the path is set and [fs1] the one when the first team loads
    the catalog. *)
Definition hero_path : string := "./res/heroes.txt".
Definition welcome : string :=
  "Welcome to the Arena! We're going to generate a random team for you.".

Definition configure (fs0 : FileSystem) : P unit :=
  (stmt print welcome ;;
   stmt print "" ;;
   stmt call (set_hero_file fs0 hero_path) ;;
   stmt ask_team_size ;;
   ask_special)%py.

Definition make_teams (fs1 : FileSystem) (rng : nat → nat) : P (Team * Team) :=
  (names <<- ask_names ;;
   team_1 <<- new_team fs1 rng names.1 ;;
   team_2 <<- new_team fs1 rng names.2 ;;
   pret (team_1, team_2))%py.

Definition announce (ts : Team * Team) : P unit :=
  (stmt print "" ;;
   stmt print_roll ts.1 ;;
   stmt print_roll ts.2 ;;
   stmt print "" ;;
   print (get_name (if max_is_second ts.1 ts.2 then ts.2 else ts.1)
          +:+ "'s team picks first."))%py.

Definition show_teams (ts : Team * Team) : P unit :=
  (stmt print "" ;;
   stmt print (Team_str ts.1) ;;
   stmt print "" ;;
   print (Team_str ts.2))%py.

(** The value returned is that of [team_1] and [team_2] at the end, [None]
    when the tie loop is still running with the fuel spent. *)
Definition main (fs0 fs1 : FileSystem) (rng : nat → nat) (fuel : nat)
    : P (option (Team * Team)) :=
  (stmt configure fs0 ;;
   ts <<- make_teams fs1 rng ;;
   tied <<- break_tie rng fuel ts ;;
   match tied with
   | None => pret None
   | Some ts =>
       stmt announce ts ;;
       ts' <<- draft rng ts ;;
       stmt show_teams ts' ;;
       pret (Some ts')
   end)%py.

(** A line the team-size prompt accepts. *)
Definition is_size (l : string) : Prop := l = "3" ∨ l = "4".


(** The answers the prompt about the class Special takes for yes and for
    no. *)
Definition says_yes (l : string) : Prop := lower l = "y" ∨ lower l = "yes".
Definition says_no (l : string) : Prop := lower l = "n" ∨ lower l = "no".

(** Lines read two by two, each pair made of the same name twice. *)
Fixpoint equal_pairs (l : list string) : Prop :=
  match l with
  | [] => True
  | [_] => False
  | x :: y :: l' => x = y ∧ equal_pairs l'
  end.

(** The same team but for its roll. *)
Definition rerolled (t t' : Team) : Prop :=
  _name t' = _name t ∧ _possible_classes t' = _possible_classes t ∧
  _heroes t' = _heroes t.

(** The rolls of the two teams after the turn [k] of the tie loop, when the
    loop starts with [c] draws taken. *)
Definition rolls_at (rng : nat → nat) (c k : nat) : Z * Z :=
  (randint 1 20 (rng (c + 2 * k)), randint 1 20 (rng (S (c + 2 * k)))).


(** Two teams with the same roll, and a generator whose first two draws
    tie. *)
Definition bea : Team :=
  {| _name := "bea"; _roll := 7;
     _possible_classes := ["Warrior"; "Special"; "Mage"]; _heroes := [] |}.
Definition late_rng : nat → nat := λ n, if bool_decide (n < 2) then 5 else n.
Definition at_start (cv : ClassVars) : Proc :=
  {| stdin := []; stdout := []; cursor := 0; cls := cv |}.

(** The calls of [n] rounds of the draft as calls on a session of two
    teams: the team at position [first] drafts, then the other one; [c]
    draws were taken before. *)
Fixpoint turns (first : nat) (rng : nat → nat) (c n : nat) : list op :=
  match n with
  | 0 => []
  | S n' =>
      ChooseHero first (rng c) (rng (S c))
      :: ChooseHero (1 - first) (rng (S (S c))) (rng (S (S (S c))))
      :: turns first rng (S (S (S (S c)))) n'
  end.

Definition position (second : bool) : nat := if second then 1 else 0.

Definition pair_session (cv : ClassVars) (ts : Team * Team) : Session :=
  {| cvars := cv; teams := [ts.1; ts.2] |}.

(** A hero file at the place the script reads, and what a player types. *)
Definition arena_txt : string :=
  "Ann, Warrior" +:+ nl +:+ "Bob, Warrior" +:+ nl +:+
  "Cid, Mage" +:+ nl +:+ "Dee, Mage" +:+ nl +:+
  "Eve, Rogue" +:+ nl +:+ "Fay, Rogue" +:+ nl +:+
  "Gus, Healer" +:+ nl +:+ "Grognak, Special" +:+ nl.
Definition arena_disk : FileSystem :=
  λ p, if decide (p = hero_path) then Some arena_txt else None.
Definition keyboard : list string := ["three"; "3"; "NO"; "ada"; "ada"; "ada"; "bea"].

(** The generator that draws 0, 1, 2, ... *)
Definition counting : nat → nat := λ n, n.

(** The value a step returned, or [a] when it did not return. *)
Definition returned {A} (o : outcome A) (a : A) : A :=
  match o with
  | Returns x => x
  | _ => a
  end.

(** * Properties *)

Example split_two : Str.split ", " "Grognak, Special" = ["Grognak"; "Special"].
Proof. reflexivity. Qed.
Example split_three : Str.split ", " "a, b, c" = ["a"; "b"; "c"].
Proof. reflexivity. Qed.
Example split_none : Str.split ", " "abc" = ["abc"].
Proof. reflexivity. Qed.
Example split_trailing : Str.split ", " "a, " = ["a"; ""].
Proof. reflexivity. Qed.
Example split_comma_comma : Str.split ", " "a,, b" = ["a,"; "b"].
Proof. reflexivity. Qed.
Example strip_keeps_blank : Str.strip nl ("Mage " +:+ nl) = "Mage ".
Proof. reflexivity. Qed.
Example lines_last_unterminated :
  Str.lines ("a, b" +:+ nl +:+ "c, d") = ["a, b" +:+ nl; "c, d"].
Proof. reflexivity. Qed.


Example load_example :
  load_heroes disk configured =
  (Ok tt, with_possible_heroes
            (Some [("Warrior", ["Ann"; "Bob"]); ("Special", ["Grognak"]); ("Mage", ["Cid"])])
            configured).
Proof. reflexivity. Qed.

(** ** Monad steps *)

Lemma bind_Ok {S A B} (m : M S A) (k : A → M S B) s a s' :
  m s = (Ok a, s') → bind m k s = k a s'.
Proof. unfold bind. by intros ->. Qed.

Lemma bind_Err {S A B} (m : M S A) (k : A → M S B) s e s' :
  m s = (Err e, s') → bind m k s = (Err e, s').
Proof. unfold bind. by intros ->. Qed.

Lemma result_bind_Ok_inv {A B} (r : result A) (k : A → result B) b :
  result_bind r k = Ok b → ∃ a, r = Ok a ∧ k a = Ok b.
Proof. destruct r; simpl; [eauto | done]. Qed.

(** ** [set_team_size] *)

Lemma set_team_size_guard (n : Z) (cv : ClassVars) :
  set_team_size n cv =
  if bool_decide (_team_size cv = 3%Z) || bool_decide (_team_size cv = 4%Z)
  then (Ok tt, with_team_size n cv) else (Err ValueError, cv).
Proof. unfold set_team_size, bind, get. simpl. by case_match. Qed.

(** C3: [set_team_size] tests the size already stored, not its argument:
    from the initial size 3 the call [set_team_size(5)] returns and stores
    5, and the next call, [set_team_size(3)], raises [ValueError]. *)
Theorem set_team_size_tests_stored_size :
  set_team_size 5 class_body = (Ok tt, with_team_size 5 class_body) ∧
  get_team_size (with_team_size 5 class_body) = 5%Z ∧
  set_team_size 3 (with_team_size 5 class_body)
    = (Err ValueError, with_team_size 5 class_body).
Proof. by rewrite !set_team_size_guard. Qed.

(** ** [set_hero_file] and [load_heroes] *)

Lemma set_hero_file_missing fs p cv :
  isfile fs p = false → set_hero_file fs p cv = (Err FileNotFoundError, cv).
Proof. unfold set_hero_file. by intros ->. Qed.

Lemma set_hero_file_present fs p cv :
  isfile fs p = true →
  set_hero_file fs p cv = (Ok tt, with_hero_file_path (Some p) cv).
Proof. unfold set_hero_file. by intros ->. Qed.

Lemma set_hero_file_Ok_inv fs p cv cv' :
  set_hero_file fs p cv = (Ok tt, cv') →
  isfile fs p = true ∧ p ≠ "" ∧ cv' = with_hero_file_path (Some p) cv.
Proof.
  unfold set_hero_file. destruct (isfile fs p) eqn:E; simpl; [|done].
  intros [= <-]. split_and!; [done | | done].
  intros ->. by unfold isfile, read_file in E.
Qed.

Lemma load_heroes_Err_frame fs cv e cv' :
  load_heroes fs cv = (Err e, cv') → cv' = cv.
Proof.
  unfold load_heroes, raise, put.
  repeat case_match; by intros [= ? ?].
Qed.

Lemma load_heroes_Ok_inv fs cv cv' :
  load_heroes fs cv = (Ok tt, cv') →
  ∃ p text d, _hero_file_path cv = Some p ∧ read_file fs p = Some text ∧
              load_lines [] (Str.lines text) = Ok d ∧
              cv' = with_possible_heroes (Some d) cv.
Proof.
  unfold load_heroes, raise, put.
  destruct (path_unset _); [done|].
  destruct (_hero_file_path cv) as [p|] eqn:Hp; simpl; [|done].
  destruct (read_file fs p) as [text|] eqn:Ht; [|done].
  destruct (load_lines _ _) as [d|] eqn:Hd; [|done].
  intros [= <-]. by exists p, text, d.
Qed.

(** C8: [set_hero_file] raises [FileNotFoundError] exactly when its argument
    names no file, and then leaves the class variables (so the path set
    before) as they were; [load_heroes] raises [PathNotSetError] when no path
    was set and [FileNotFoundError] when the path once accepted by
    [set_hero_file] names no file any more; whatever [load_heroes] raises,
    the class variables, and so the catalog, are unchanged. *)
Theorem source_path_and_load_errors (fs0 fs : FileSystem) (p : string) (cv : ClassVars) :
  (isfile fs p = false → set_hero_file fs p cv = (Err FileNotFoundError, cv)) ∧
  (isfile fs p = true →
     set_hero_file fs p cv = (Ok tt, with_hero_file_path (Some p) cv)) ∧
  (_hero_file_path cv = None → load_heroes fs cv = (Err PathNotSetError, cv)) ∧
  (∀ cv0, set_hero_file fs0 p cv0 = (Ok tt, cv) → isfile fs p = false →
          load_heroes fs cv = (Err FileNotFoundError, cv)) ∧
  (∀ e cv', load_heroes fs cv = (Err e, cv') →
            cv' = cv ∧ _possible_heroes cv' = _possible_heroes cv).
Proof.
  split_and!.
  - apply set_hero_file_missing.
  - apply set_hero_file_present.
  - intros Hp. unfold load_heroes. by rewrite Hp.
  - intros cv0 (_ & Hne & ->)%set_hero_file_Ok_inv Hgone.
    unfold load_heroes, isfile in *. simpl.
    rewrite bool_decide_eq_false_2 by done.
    by destruct (read_file fs p).
  - intros e cv' ->%load_heroes_Err_frame. done.
Qed.

Lemma source_path_and_load_errors_witness :
  set_hero_file no_disk "heroes.txt" configured = (Err FileNotFoundError, configured) ∧
  set_hero_file disk "heroes.txt" class_body = (Ok tt, configured) ∧
  load_heroes disk class_body = (Err PathNotSetError, class_body) ∧
  load_heroes no_disk configured = (Err FileNotFoundError, configured) ∧
  _possible_heroes configured = _possible_heroes configured.
Proof.
  destruct (source_path_and_load_errors disk no_disk "heroes.txt" configured)
    as (H1 & _ & _ & H4 & H5).
  destruct (source_path_and_load_errors disk disk "heroes.txt" class_body)
    as (_ & H2 & H3 & _ & _).
  split_and!.
  - apply H1. reflexivity.
  - apply H2. reflexivity.
  - apply H3. reflexivity.
  - apply (H4 class_body); reflexivity.
  - apply (H5 FileNotFoundError configured). reflexivity.
Defined.

(** ** Lists, choices and dictionaries *)

Lemma list_remove_Ok `{EqDecision A} (x : A) (l l' : list A) :
  list_remove x l = Ok l' →
  x ∈ l ∧ l ≡ₚ x :: l' ∧ length l = S (length l') ∧ l' ⊆ l.
Proof.
  revert l'. induction l as [|y l IH]; intros l'; simpl; [done|].
  destruct (decide (x = y)) as [->|Hne].
  - intros [= ->]. split_and!; [left | done | done | set_solver].
  - intros (l'' & Hl & [= <-])%result_bind_Ok_inv.
    destruct (IH _ Hl) as (Hin & Hp & Hlen & Hsub).
    split_and!.
    + by right.
    + rewrite Hp. apply Permutation_swap.
    + simpl. by rewrite Hlen.
    + set_solver.
Qed.

Lemma list_remove_elem `{EqDecision A} (x : A) (l : list A) :
  x ∈ l → ∃ l', list_remove x l = Ok l'.
Proof.
  induction l as [|y l IH]; simpl; [by intros ?%elem_of_nil|].
  intros Hin. destruct (decide (x = y)); [eauto|].
  destruct IH as [l' ->]; [set_solver|]. simpl. eauto.
Qed.

Lemma list_remove_NoDup `{EqDecision A} (x : A) (l l' : list A) :
  NoDup l → list_remove x l = Ok l' → NoDup l' ∧ x ∉ l'.
Proof.
  intros Hnd (_ & Hp & _)%list_remove_Ok.
  rewrite Hp in Hnd. by apply NoDup_cons in Hnd as [? ?].
Qed.

Lemma index_Ok {A} (l : list A) i x : index l i = Ok x ↔ l !! i = Some x.
Proof. unfold index. destruct (l !! i); simpl; naive_solver. Qed.

Lemma choice_Ok {A} (l : list A) r x :
  choice l r = Ok x ↔ l ≠ [] ∧ l !! (r `mod` length l) = Some x.
Proof.
  unfold choice, randbelow. destruct l as [|y l]; [naive_solver|].
  rewrite index_Ok. naive_solver.
Qed.

Lemma choice_elem {A} (l : list A) r x : choice l r = Ok x → x ∈ l.
Proof. intros [_ H]%choice_Ok. by eapply list_elem_of_lookup_2. Qed.

Lemma choice_nonempty {A} (l : list A) r : l ≠ [] → ∃ x, choice l r = Ok x.
Proof.
  intros Hl. destruct (lookup_lt_is_Some_2 l (r `mod` length l)) as [x Hx].
  - apply Nat.mod_upper_bound. by destruct l.
  - exists x. by apply choice_Ok.
Qed.

Lemma choice_Err {A} (l : list A) r e : choice l r = Err e → l = [] ∧ e = IndexError.
Proof.
  destruct l as [|y l]; [by intros [= <-]|].
  destruct (choice_nonempty (y :: l) r) as [x ->]; done.
Qed.


Section dict_facts.
Context {V : Type}.
Implicit Types (d : list (string * V)) (k : string) (v : V).

Lemma get_Some_elem k v d : Dict.get k d = Some v → (k, v) ∈ d.
  Proof.
    induction d as [|[k' v'] d IH]; simpl; [done|].
    case_decide; [intros [= ->]; subst; left | right; auto].
  Qed.

Lemma get_is_Some k d : is_Some (Dict.get k d) ↔ k ∈ Dict.keys d.
  Proof.
    unfold Dict.keys. induction d as [|[k' v'] d IH]; simpl.
    - split; [by intros [? ?] | by intros ?%elem_of_nil].
    - case_decide; subst.
      + split; [left | eauto].
      + rewrite IH. set_solver.
  Qed.

Lemma get_None k d : Dict.get k d = None ↔ k ∉ Dict.keys d.
  Proof. rewrite <-get_is_Some, eq_None_not_Some. done. Qed.

Lemma mem_true k d : Dict.mem k d = true ↔ k ∈ Dict.keys d.
  Proof.
    rewrite <-get_is_Some. unfold Dict.mem.
    destruct (Dict.get k d); split; (done || by intros [? ?] || eauto).
  Qed.

  (** A key that is present splits the dictionary around its entry. *)
Lemma get_split k v d :
    Dict.get k d = Some v →
    ∃ d1 d2, d = d1 ++ (k, v) :: d2 ∧ (k ∉ Dict.keys d1) ∧
             (∀ v', Dict.set k v' d = d1 ++ (k, v') :: d2).
  Proof.
    induction d as [|[k' w] d IH]; simpl; [done|].
    case_decide as Hk.
    - intros [= ->]. subst k'. exists [], d. split_and!; [done | apply not_elem_of_nil |].
      intros v'. simpl. by rewrite ?decide_True.
    - intros (d1 & d2 & -> & Hn & Hset)%IH.
      exists ((k', w) :: d1), d2. split_and!; [done | |].
      + unfold Dict.keys in *. simpl. set_solver.
      + intros v'. simpl. by rewrite Hset.
  Qed.

Lemma set_fresh k v d : Dict.get k d = None → Dict.set k v d = d ++ [(k, v)].
  Proof.
    induction d as [|[k' w] d IH]; simpl; [done|].
    case_decide; [done|]. intros ?. by rewrite IH.
  Qed.

Lemma keys_set_present k v d :
    is_Some (Dict.get k d) → Dict.keys (Dict.set k v d) = Dict.keys d.
  Proof.
    intros [w (d1 & d2 & -> & _ & ->)%get_split].
    unfold Dict.keys. by rewrite !fmap_app.
  Qed.

Lemma get_set k k' v d :
    Dict.get k' (Dict.set k v d) = if decide (k' = k) then Some v else Dict.get k' d.
  Proof.
    induction d as [|[k0 w] d IH]; simpl.
    - by repeat case_decide.
    - repeat (case_decide; simpl; subst); try done; by rewrite IH, ?decide_True, ?decide_False.
  Qed.

Lemma keys_del k d : Dict.keys (Dict.del k d) = filter (λ k', k' ≠ k) (Dict.keys d).
  Proof.
    unfold Dict.keys. induction d as [|[k' w] d IH]; csimpl; [done|].
    case_decide; subst.
    - rewrite filter_cons_False by naive_solver. done.
    - rewrite filter_cons_True by naive_solver. csimpl. by rewrite IH.
  Qed.


Lemma del_absent k d : k ∉ Dict.keys d → Dict.del k d = d.
  Proof.
    unfold Dict.keys. induction d as [|[k' w] d IH]; simpl; [done|].
    intros Hn. case_decide; [set_solver|]. rewrite IH; [done | set_solver].
  Qed.

Lemma wf_del k d : Dict.wf d → Dict.wf (Dict.del k d).
  Proof. unfold Dict.wf. rewrite keys_del. apply NoDup_filter. Qed.

Lemma wf_set k v d : Dict.wf d → Dict.wf (Dict.set k v d).
  Proof.
    unfold Dict.wf. intros Hwf. destruct (Dict.get k d) as [w|] eqn:Hg.
    - by rewrite keys_set_present.
    - rewrite set_fresh by done. unfold Dict.keys. rewrite fmap_app. simpl.
      apply NoDup_app. split_and!; [done | | apply NoDup_singleton].
      intros k' Hk' ->%list_elem_of_singleton. by apply get_None in Hg.
  Qed.
End dict_facts.

(** ** The weighted list of classes *)





Section weighted.
Implicit Types (d : Catalog) (classes ks : list string) (k : string).

Lemma keys_to_choose_from_cons d k classes ks :
    keys_to_choose_from (Some d) (k :: classes) = Ok ks ↔
    ∃ hs rest, Dict.get k d = Some hs ∧
               keys_to_choose_from (Some d) classes = Ok rest ∧
               ks = replicate (length hs) k ++ rest.
  Proof.
    simpl. destruct (Dict.get k d) as [hs|]; simpl; [|naive_solver].
    destruct (keys_to_choose_from (Some d) classes) as [rest|]; simpl; naive_solver.
  Qed.

Lemma keys_to_choose_from_elem d classes ks k :
    keys_to_choose_from (Some d) classes = Ok ks → k ∈ ks →
    k ∈ classes ∧ ∃ h hs, Dict.get k d = Some (h :: hs).
  Proof.
    revert ks. induction classes as [|k0 classes IH]; intros ks.
    - intros [= <-] ?%elem_of_nil. done.
    - intros (hs & rest & Hg & Hrest & ->)%keys_to_choose_from_cons.
      intros [Hk|Hk]%elem_of_app.
      + apply elem_of_replicate in Hk as [-> Hn]. split; [left|].
        destruct hs as [|h hs]; [done | eauto].
      + destruct (IH _ Hrest Hk) as [? ?]. split; [by right | done].
  Qed.



Lemma keys_to_choose_from_Err c classes e :
    keys_to_choose_from c classes = Err e →
    (c = None ∧ e = TypeError ∧ classes ≠ []) ∨
    (∃ d k, c = Some d ∧ k ∈ classes ∧ Dict.get k d = None ∧ e = KeyError).
  Proof.
    destruct c as [d|].
    - induction classes as [|k0 classes IH]; simpl; [done|].
      destruct (Dict.get k0 d) as [hs|] eqn:Hg; simpl.
      + destruct (keys_to_choose_from (Some d) classes) as [rest|]; simpl; [done|].
        intros [= ->]. destruct IH as [(? & _)|(d' & k & [= <-] & ? & ? & ?)]; [done..|].
        right. exists d, k. split_and!; [done | by right | done | done].
      + intros [= <-]. right. exists d, k0. split_and!; [done | left | done | done].
    - destruct classes; simpl; [done|]. intros [= <-]. by left.
  Qed.

End weighted.

(** ** [choose_hero] *)

Lemma draw_Ok_inv r1 r2 cv t k h :
  draw r1 r2 cv t = Ok (k, h) →
  ∃ d ks hs, _possible_heroes cv = Some d ∧
    keys_to_choose_from (Some d) (_possible_classes t) = Ok ks ∧
    choice ks r1 = Ok k ∧ Dict.get k d = Some hs ∧ choice hs r2 = Ok h.
Proof.
  unfold draw.
  intros (ks & Hks & (k' & Hk & (hs & Hhs & (h' & Hh & [= -> ->])%result_bind_Ok_inv)
    %result_bind_Ok_inv)%result_bind_Ok_inv)%result_bind_Ok_inv.
  destruct (_possible_heroes cv) as [d|]; [|done].
  exists d, ks, hs. split_and!; try done.
  simpl in Hhs. by destruct (Dict.get k d); simplify_eq/=.
Qed.


(** A failed draw leaves everything as it was. *)
Lemma choose_hero_Err r1 r2 cv t e :
  draw r1 r2 cv t = Err e → choose_hero r1 r2 (cv, t) = (Err e, (cv, t)).
Proof. intros He. unfold choose_hero, bind, get, lift. simpl. by rewrite He. Qed.

(** A successful draw is followed by the three updates, none of which
    raises. *)
Lemma choose_hero_Ok r1 r2 cv t k h :
  draw r1 r2 cv t = Ok (k, h) →
  ∃ d hs hs' classes',
    _possible_heroes cv = Some d ∧ Dict.get k d = Some hs ∧
    list_remove h hs = Ok hs' ∧
    list_remove k (_possible_classes t) = Ok classes' ∧
    choose_hero r1 r2 (cv, t) =
      (Ok tt, (with_possible_heroes (Some (Dict.set k hs' d)) cv,
               {| _name := _name t; _roll := _roll t;
                  _possible_classes := classes';
                  _heroes := _heroes t ++ [h] |})).
Proof.
  intros Hdraw.
  destruct (draw_Ok_inv _ _ _ _ _ _ Hdraw) as (d & ks & hs & Hd & Hks & Hk & Hhs & Hh).
  destruct (keys_to_choose_from_elem d _ ks k Hks (choice_elem _ _ _ Hk)) as [Hkin _].
  destruct (list_remove_elem k _ Hkin) as [classes' Hcl].
  destruct (list_remove_elem h hs (choice_elem _ _ _ Hh)) as [hs' Hhs'].
  exists d, hs, hs', classes'. split_and!; try done.
  unfold choose_hero, bind, get, lift. simpl. rewrite Hdraw. simpl.
  rewrite Hcl. simpl. rewrite Hd. simpl. rewrite Hhs. simpl. by rewrite Hhs'.
Qed.






Example ada_weighted_keys :
  keys_to_choose_from (_possible_heroes loaded) (_possible_classes ada)
  = Ok ["Warrior"; "Warrior"; "Special"; "Mage"].
Proof. reflexivity. Qed.

Example ada_draws_bob : draw 1 1 loaded ada = Ok ("Warrior", "Bob").
Proof. reflexivity. Qed.


(** ** Calls on a session *)

Lemma session_eta s : {| cvars := cvars s; teams := teams s |} = s.
Proof. by destruct s. Qed.

Lemma exec_draft_absent s i r1 r2 :
  teams s !! i = None → exec (ChooseHero i r1 r2) s = (Ok tt, s).
Proof. intros Hi. simpl. unfold on_team. by rewrite Hi. Qed.

Lemma exec_draft_Err s i r1 r2 t e :
  teams s !! i = Some t → draw r1 r2 (cvars s) t = Err e →
  exec (ChooseHero i r1 r2) s = (Err e, s).
Proof.
  intros Hi He. simpl. unfold on_team. rewrite Hi, (choose_hero_Err _ _ _ _ _ He).
  by rewrite list_insert_id, session_eta.
Qed.

Lemma exec_draft_Ok s i r1 r2 t k h :
  teams s !! i = Some t → draw r1 r2 (cvars s) t = Ok (k, h) →
  ∃ d hs hs' classes',
    _possible_heroes (cvars s) = Some d ∧ Dict.get k d = Some hs ∧
    list_remove h hs = Ok hs' ∧
    list_remove k (_possible_classes t) = Ok classes' ∧
    exec (ChooseHero i r1 r2) s =
      (Ok tt,
       {| cvars := with_possible_heroes (Some (Dict.set k hs' d)) (cvars s);
          teams := <[i := {| _name := _name t; _roll := _roll t;
                             _possible_classes := classes';
                             _heroes := _heroes t ++ [h] |}]> (teams s) |}).
Proof.
  intros Hi Hdraw.
  destruct (choose_hero_Ok _ _ _ _ _ _ Hdraw) as (d & hs & hs' & classes' & ? & ? & ? & ? & Hch).
  exists d, hs, hs', classes'. split_and!; try done.
  simpl. unfold on_team. by rewrite Hi, Hch.
Qed.

Lemma pick_of_draft s i r1 r2 t :
  teams s !! i = Some t →
  pick_of (ChooseHero i r1 r2) s =
  match draw r1 r2 (cvars s) t with Ok kh => Some (i, kh) | Err _ => None end.
Proof. intros Hi. simpl. by rewrite Hi. Qed.

(** ** No hero is drafted twice *)

Lemma drafted_insert ts i t t' h :
  ts !! i = Some t → _heroes t' = _heroes t ++ [h] →
  drafted (<[i := t']> ts) ≡ₚ h :: drafted ts.
Proof.
  intros Hi Ht'. unfold drafted.
  rewrite insert_take_drop by (by eapply lookup_lt_Some).
  rewrite <-(take_drop_middle ts i t Hi) at 3.
  rewrite !fmap_app, !fmap_cons, !concat_app, !concat_cons, Ht'.
  rewrite Permutation_middle. f_equiv.
  rewrite <-(assoc_L (++)). simpl.
  by rewrite <-Permutation_middle.
Qed.

Lemma catalog_heroes_set d k hs hs' h :
  Dict.get k d = Some hs → hs ≡ₚ h :: hs' →
  catalog_heroes (Some d) ≡ₚ h :: catalog_heroes (Some (Dict.set k hs' d)).
Proof.
  intros (d1 & d2 & -> & _ & Hset)%get_split Hp. rewrite Hset. simpl.
  rewrite !fmap_app, !fmap_cons, !concat_app, !concat_cons. simpl.
  rewrite Hp. simpl. by rewrite <-Permutation_middle.
Qed.

Lemma get_catalog_heroes d k hs h :
  Dict.get k d = Some hs → h ∈ hs → h ∈ catalog_heroes (Some d).
Proof.
  intros (d1 & d2 & -> & _)%get_split Hh. simpl.
  rewrite fmap_app, fmap_cons, concat_app, concat_cons. set_solver.
Qed.

Lemma draw_from_catalog r1 r2 cv t k h :
  draw r1 r2 cv t = Ok (k, h) → h ∈ catalog_heroes (_possible_heroes cv).
Proof.
  intros (d & ks & hs & -> & _ & _ & Hhs & Hh)%draw_Ok_inv.
  eapply get_catalog_heroes; [done|]. by eapply choice_elem.
Qed.

(** One call of [choose_hero]: the hero picked moves from the catalog to the
    teams, and nothing else moves. *)
Lemma draft_step (o : op) (s : Session) :
  is_draft o →
  let hs := (option_list (pick_of o s)).*2.*2 in
  drafted (teams (exec o s).2) ≡ₚ hs ++ drafted (teams s) ∧
  catalog_heroes (_possible_heroes (cvars s)) ≡ₚ
    hs ++ catalog_heroes (_possible_heroes (cvars (exec o s).2)).
Proof.
  destruct o as [| | | | |i r|i r1 r2]; try done. intros _.
  destruct (teams s !! i) as [t|] eqn:Hi.
  - rewrite (pick_of_draft _ _ _ _ _ Hi).
    destruct (draw r1 r2 (cvars s) t) as [[k h]|e] eqn:Hdraw.
    + destruct (exec_draft_Ok _ _ _ _ _ _ _ Hi Hdraw)
        as (d & hs & hs' & classes' & Hd & Hg & Hrm & _ & ->).
      simpl. split.
      * by eapply drafted_insert.
      * rewrite Hd. eapply catalog_heroes_set; [done|].
        by apply list_remove_Ok in Hrm as (_ & ? & _).
    + by rewrite (exec_draft_Err _ _ _ _ _ _ Hi Hdraw).
  - rewrite (exec_draft_absent _ _ _ _ Hi). simpl. by rewrite Hi.
Qed.

Lemma drafts_move_heroes (tr : list op) (s : Session) :
  Forall is_draft tr →
  let hs := (picks tr s).*2.*2 in
  drafted (teams (run tr s)) ≡ₚ hs ++ drafted (teams s) ∧
  catalog_heroes (_possible_heroes (cvars s)) ≡ₚ
    hs ++ catalog_heroes (_possible_heroes (cvars (run tr s))).
Proof.
  intros Htr. revert s. induction Htr as [|o tr Ho _ IH]; intros s; [done|].
  destruct (draft_step o s Ho) as [H1 H2]. destruct (IH (exec o s).2) as [H3 H4].
  simpl. rewrite !fmap_app. split.
  - rewrite H3, H1. by rewrite (assoc_L (++)), (comm (++) _ (_.*2.*2)).
  - rewrite H2, H4. by rewrite (assoc_L (++)).
Qed.

(** C2, as stated, fails: [load_heroes] keeps a name that stands on two
    lines of the file twice in the catalog.  With [Cid] under the classes
    Mage and Rogue, the first team drafts [Cid], the name is still in the
    catalog after that pick, and the second team drafts [Cid] as well. *)
Lemma same_name_drafted_twice :
  let s := run twin_setup fresh_session in
  (picks [ChooseHero 0 0 0; ChooseHero 1 0 0] s).*2.*2 = ["Cid"; "Cid"] ∧
  "Cid" ∈ catalog_heroes (_possible_heroes (cvars (run [ChooseHero 0 0 0] s))) ∧
  _heroes <$> teams (run [ChooseHero 0 0 0; ChooseHero 1 0 0] s) = [["Cid"]; ["Cid"]].
Proof.
  split_and!; [vm_compute; reflexivity| |vm_compute; reflexivity].
  apply (bool_decide_unpack _). vm_compute. exact I.
Qed.

(** C2: in any sequence of [choose_hero] calls by the teams of a session
    whose heroes, drafted and in the catalog, are pairwise distinct at the
    start (as they are for teams just created on a catalog that names each
    hero once), the heroes appended are pairwise distinct and are exactly
    what the teams gain; no team holds a hero twice or a hero of another
    team; and a hero held by a team is no longer in the catalog, so that no
    later draw of any team yields it. *)
Theorem no_hero_drafted_twice (tr : list op) (s : Session) :
  Forall is_draft tr →
  NoDup (drafted (teams s) ++ catalog_heroes (_possible_heroes (cvars s))) →
  let s' := run tr s in
  NoDup (picks tr s).*2.*2 ∧
  drafted (teams s') ≡ₚ (picks tr s).*2.*2 ++ drafted (teams s) ∧
  NoDup (drafted (teams s')) ∧
  (∀ h, h ∈ drafted (teams s') → h ∉ catalog_heroes (_possible_heroes (cvars s'))) ∧
  (∀ i t r1 r2 key hero,
     teams s' !! i = Some t → draw r1 r2 (cvars s') t = Ok (key, hero) →
     hero ∉ drafted (teams s')).
Proof.
  intros Htr Hnd. destruct (drafts_move_heroes tr s Htr) as [Hteams Hcat]. simpl.
  assert (NoDup (drafted (teams (run tr s)) ++
                 catalog_heroes (_possible_heroes (cvars (run tr s))))) as Hnd'.
  { rewrite Hteams. rewrite Hcat in Hnd.
    by rewrite (comm (++) _ (drafted (teams s))), <-(assoc_L (++)). }
  apply NoDup_app in Hnd' as (Hnd1 & Hdisj & _).
  split_and!; [| done | done | done |].
  - rewrite Hteams in Hnd1. by apply NoDup_app in Hnd1 as (? & _ & _).
  - intros i t r1 r2 key hero _ Hin%draw_from_catalog Hdr. by eapply Hdisj.
Qed.

(** ** The picks of one team *)

Lemma keys_to_choose_from_available d classes ks k h hs :
  keys_to_choose_from (Some d) classes = Ok ks →
  k ∈ classes → Dict.get k d = Some (h :: hs) → k ∈ ks.
Proof.
  revert ks. induction classes as [|k0 classes IH]; intros ks; [by intros _ ?%elem_of_nil|].
  intros (hs0 & rest & Hg & Hrest & ->)%keys_to_choose_from_cons Hin Hk.
  apply elem_of_cons in Hin as [->|Hin].
  - rewrite Hk in Hg. injection Hg as <-. simpl. left.
  - apply elem_of_app. right. eauto.
Qed.


Lemma classes_known_set cv t d k hs' classes' :
  classes_known cv t → _possible_heroes cv = Some d →
  classes' ⊆ _possible_classes t →
  classes_known (with_possible_heroes (Some (Dict.set k hs' d)) cv)
    {| _name := _name t; _roll := _roll t;
       _possible_classes := classes'; _heroes := _heroes t |}.
Proof.
  intros (d' & Hd' & Hknown) Hd Hsub. rewrite Hd in Hd'. injection Hd' as <-.
  exists (Dict.set k hs' d). split; [done|]. simpl. intros key Hkey.
  rewrite get_set. case_decide; [done|]. apply Hknown. by apply Hsub.
Qed.








Example two_teams_setup : run setup fresh_session = two_teams.
Proof. vm_compute. reflexivity. Qed.

Example in_turn_picks :
  picks in_turn two_teams =
  [(0, ("Warrior", "Bob")); (1, ("Warrior", "Ann")); (0, ("Special", "Grognak"))].
Proof. vm_compute. reflexivity. Qed.


Ltac distinct := apply (bool_decide_unpack _); vm_compute; exact I.


Lemma no_hero_drafted_twice_witness :
  NoDup (picks in_turn two_teams).*2.*2 ∧
  NoDup (drafted (teams (run in_turn two_teams))).
Proof.
  destruct (no_hero_drafted_twice in_turn two_teams) as (H1 & _ & H3 & _).
  - repeat constructor.
  - distinct.
  - split; [exact H1 | exact H3].
Defined.

(** ** Creating a team *)

Lemma with_possible_heroes_id cv d :
  _possible_heroes cv = Some d → with_possible_heroes (Some d) cv = cv.
Proof. destruct cv. simpl. by intros ->. Qed.

Lemma del_not_mem (d : Catalog) k : Dict.mem k d = false → Dict.del k d = d.
Proof. intros E. apply del_absent. rewrite <-mem_true. by rewrite E. Qed.

(** What [Team(team_name)] returns and leaves behind: the catalog is the one
    already loaded, or the one loaded now, less the class Special when that
    class is disallowed. *)
Lemma Team_init_spec fs name r cv :
  match Team_init fs name r cv with
  | (Ok t, cv') =>
      ∃ d0, (_possible_heroes cv = Some d0 ∨
             (_possible_heroes cv = None ∧
              load_heroes fs cv = (Ok tt, with_possible_heroes (Some d0) cv))) ∧
            let d := if _allow_special_class cv then d0 else Dict.del "Special" d0 in
            cv' = with_possible_heroes (Some d) cv ∧
            t = {| _name := name; _roll := randint 1 20 r;
                   _possible_classes := Dict.keys d; _heroes := [] |}
  | (Err e, cv') =>
      cv' = cv ∧ _possible_heroes cv = None ∧ load_heroes fs cv = (Err e, cv)
  end.
Proof.
  unfold Team_init, bind, get. simpl.
  destruct (_possible_heroes cv) as [d0|] eqn:Hd0.
  - unfold ret at 1. simpl. destruct (_allow_special_class cv) eqn:Ha; simpl.
    + unfold ret. simpl. rewrite Hd0. exists d0. split; [by left|].
      by rewrite with_possible_heroes_id.
    + rewrite Hd0. destruct (Dict.mem "Special" d0) eqn:Hm; unfold put, ret; simpl.
      * exists d0. split; [by left|done].
      * rewrite Hd0. exists d0. split; [by left|].
        by rewrite (del_not_mem _ _ Hm), with_possible_heroes_id.
  - destruct (load_heroes fs cv) as [[[]|e] cv1] eqn:Hload.
    + destruct (load_heroes_Ok_inv _ _ _ Hload) as (p & text & d0 & _ & _ & _ & ->).
      simpl. destruct (_allow_special_class cv) eqn:Ha; simpl.
      * exists d0. split; [by right|done].
      * destruct (Dict.mem "Special" d0) eqn:Hm; unfold put, ret; simpl.
        -- exists d0. split; [by right|]. by destruct cv.
        -- exists d0. split; [by right|]. by rewrite (del_not_mem _ _ Hm).
    + by rewrite (load_heroes_Err_frame _ _ _ _ Hload).
Qed.

(** ** Rolls *)

Lemma randint_d20 r : (1 ≤ randint 1 20 r ≤ 20)%Z.
Proof.
  unfold randint, randbelow. simpl.
  pose proof (Nat.mod_upper_bound r 20). lia.
Qed.

Lemma exec_NewTeam fs name r s :
  exec (NewTeam fs name r) s =
  match Team_init fs name r (cvars s) with
  | (Ok t, cv) => (Ok tt, {| cvars := cv; teams := teams s ++ [t] |})
  | (Err e, cv) => (Err e, {| cvars := cv; teams := teams s |})
  end.
Proof.
  simpl. unfold bind, on_class.
  by destruct (Team_init fs name r (cvars s)) as [[t|e] cv].
Qed.

Lemma exec_on_class_teams {A} (m : M ClassVars A) s : teams (on_class m s).2 = teams s.
Proof. unfold on_class. by destruct (m (cvars s)). Qed.

Lemma exec_Reroll i r s t :
  teams s !! i = Some t →
  exec (Reroll i r) s =
  (Ok tt, {| cvars := cvars s; teams := <[i := reroll r t]> (teams s) |}).
Proof. intros Hi. simpl. unfold on_team. by rewrite Hi. Qed.

Lemma exec_Reroll_absent i r s :
  teams s !! i = None → exec (Reroll i r) s = (Ok tt, s).
Proof. intros Hi. simpl. unfold on_team. by rewrite Hi. Qed.

Lemma elem_of_insert_inv {A} (l : list A) i x y :
  y ∈ <[i := x]> l → y ∈ l ∨ y = x.
Proof.
  intros [j Hj]%list_elem_of_lookup_1. destruct (decide (i = j)) as [->|Hne].
  - pose proof (lookup_lt_Some _ _ _ Hj) as Hlt. rewrite length_insert in Hlt.
    rewrite list_lookup_insert_eq in Hj by done. right. congruence.
  - rewrite list_lookup_insert_ne in Hj by done. left. by eapply list_elem_of_lookup_2.
Qed.

Lemma exec_rolls (o : op) (s : Session) :
  Forall roll_ok (teams s) → Forall roll_ok (teams (exec o s).2).
Proof.
  intros Hs. destruct o as [fs p|fs| |n|fs name r|i r|i r1 r2];
    try (simpl; by rewrite exec_on_class_teams).
  - rewrite exec_NewTeam. pose proof (Team_init_spec fs name r (cvars s)) as Hspec.
    destruct (Team_init fs name r (cvars s)) as [[t|e] cv]; simpl; [|done].
    destruct Hspec as (d0 & _ & _ & ->).
    apply Forall_app. split; [done|]. apply Forall_singleton, randint_d20.
  - destruct (teams s !! i) as [t|] eqn:Hi.
    + rewrite (exec_Reroll _ _ _ _ Hi). simpl.
      apply Forall_insert; [done|]. apply randint_d20.
    + by rewrite (exec_Reroll_absent _ _ _ Hi).
  - destruct (teams s !! i) as [t|] eqn:Hi.
    + destruct (draw r1 r2 (cvars s) t) as [[k h]|e] eqn:Hdraw.
      * destruct (exec_draft_Ok _ _ _ _ _ _ _ Hi Hdraw) as (? & ? & ? & ? & _ & _ & _ & _ & ->).
        simpl. apply Forall_insert; [done|].
        by eapply (Forall_lookup_1 roll_ok) in Hi.
      * by rewrite (exec_draft_Err _ _ _ _ _ _ Hi Hdraw).
    + by rewrite (exec_draft_absent _ _ _ _ Hi).
Qed.

Lemma run_rolls (tr : list op) (s : Session) :
  Forall roll_ok (teams s) → Forall roll_ok (teams (run tr s)).
Proof.
  revert s. induction tr as [|o tr IH]; intros s Hs; [done|].
  simpl. by apply IH, exec_rolls.
Qed.

(** C9: in every session reached from the import of the module by any calls
    whatever (so after the construction of the team and after any number of
    rerolls), the roll of each team is between 1 and 20; and [reroll] returns
    a session with the same class variables (the catalog among them) and the
    same teams, except that the team rerolled has a new roll, again between
    1 and 20, with its name, its class list and its heroes as before. *)
Theorem roll_in_range_reroll_frame (tr : list op) (i r : nat) (t : Team) :
  let s := run tr fresh_session in
  teams s !! i = Some t →
  (1 ≤ _roll t ≤ 20)%Z ∧
  ∃ roll', (1 ≤ roll' ≤ 20)%Z ∧
    exec (Reroll i r) s =
    (Ok tt, {| cvars := cvars s;
               teams := <[i := {| _name := _name t; _roll := roll';
                                  _possible_classes := _possible_classes t;
                                  _heroes := _heroes t |}]> (teams s) |}).
Proof.
  intros s Hi. split.
  - assert (Forall roll_ok (teams s)) as Hall by (apply run_rolls; constructor).
    by eapply (Forall_lookup_1 roll_ok) in Hi.
  - exists (randint 1 20 r). split; [apply randint_d20|].
    by rewrite (exec_Reroll _ _ _ _ Hi).
Qed.

Lemma roll_in_range_reroll_frame_witness :
  ∃ roll', (1 ≤ roll' ≤ 20)%Z ∧
    exec (Reroll 0 45) (run (setup ++ in_turn) fresh_session) =
    (Ok tt, {| cvars := cvars (run (setup ++ in_turn) fresh_session);
               teams := <[0 := {| _name := "ada"; _roll := roll';
                                  _possible_classes := ["Mage"];
                                  _heroes := ["Bob"; "Grognak"] |}]>
                          (teams (run (setup ++ in_turn) fresh_session)) |}).
Proof.
  apply (roll_in_range_reroll_frame (setup ++ in_turn) 0 45
           {| _name := "ada"; _roll := 7;
              _possible_classes := ["Mage"]; _heroes := ["Bob"; "Grognak"] |}).
  reflexivity.
Defined.

(** ** Excluding the class Special *)

Lemma special_loaded_mem (d : Catalog) :
  special_loaded (Some d) = Dict.mem "Special" d.
Proof. by destruct d. Qed.

Lemma disallow_special_spec cv :
  disallow_special cv =
  (Ok tt, with_possible_heroes (Dict.del "Special" <$> _possible_heroes cv)
            (with_allow_special_class false cv)).
Proof.
  destruct cv as [p c n a]. unfold disallow_special, bind, get, put.
  assert (∀ cv c', _possible_heroes cv = c' → with_possible_heroes c' cv = cv) as Hid.
  { intros [] ? <-. done. }
  destruct a, c as [d|]; cbn [_allow_special_class with_allow_special_class
    _possible_heroes _hero_file_path _team_size fmap option_fmap option_map];
    rewrite ?special_loaded_mem; try done;
    (destruct (Dict.mem "Special" d) eqn:Hm; [done|]; by rewrite (del_not_mem _ _ Hm)).
Qed.

Lemma disallow_special_twice cv :
  disallow_special (disallow_special cv).2 = (Ok tt, (disallow_special cv).2).
Proof.
  rewrite !disallow_special_spec. simpl. f_equal. unfold with_possible_heroes. simpl.
  f_equal. destruct (_possible_heroes cv) as [d|]; simpl; [|done].
  f_equal. apply del_absent. rewrite keys_del. intros [? ?]%list_elem_of_filter. done.
Qed.






Lemma exec_DisallowSpecial s :
  exec DisallowSpecial s =
  (Ok tt, {| cvars := with_possible_heroes
                        (Dict.del "Special" <$> _possible_heroes (cvars s))
                        (with_allow_special_class false (cvars s));
             teams := teams s |}).
Proof. simpl. unfold on_class. by rewrite disallow_special_spec. Qed.






(** ** Strings *)

Section strings.
Implicit Types (s h cur rest : string) (c : ascii).
Local Arguments Ascii.eqb : simpl never.

Lemma str_app_cons c s1 s2 : String c s1 +:+ s2 = String c (s1 +:+ s2).
Proof. done. Qed.

Lemma str_app_nil_l s : "" +:+ s = s.
Proof. done. Qed.

Lemma str_app_nil_r s : s +:+ "" = s.
Proof. induction s as [|a s IH]; [done|]. by rewrite str_app_cons, IH. Qed.

Lemma str_app_assoc s1 s2 s3 : (s1 +:+ s2) +:+ s3 = s1 +:+ (s2 +:+ s3).
Proof. induction s1 as [|a s1 IH]; [done|]. by rewrite !str_app_cons, IH. Qed.

Lemma snoc_app cur c s : Str.snoc cur c +:+ s = cur +:+ String c s.
Proof. unfold Str.snoc. by rewrite str_app_assoc. Qed.

Lemma prefix_nil s : String.prefix "" s = true.
Proof. by destruct s. Qed.

Lemma prefix_cons a s1 b s2 :
  String.prefix (String a s1) (String b s2)
  = if decide (a = b) then String.prefix s1 s2 else false.
Proof.
  change (String.prefix (String a s1) (String b s2))
    with (match ascii_dec a b with
          | left _ => String.prefix s1 s2
          | right _ => false
          end).
  destruct (ascii_dec a b); by case_decide.
Qed.

Lemma prefix_delim rest : String.prefix ", " (String "," (String " " rest)) = true.
Proof. by rewrite !prefix_cons, !decide_True, prefix_nil. Qed.

Lemma split_go_step sep cur c s :
  Str.split_go sep 0 cur (String c s) =
  if String.prefix sep (String c s)
  then cur :: Str.split_go sep (String.length sep - 1) "" s
  else Str.split_go sep 0 (Str.snoc cur c) s.
Proof. done. Qed.

Lemma contains_cons sep c s :
  Str.contains sep (String c s) = String.prefix sep (String c s) || Str.contains sep s.
Proof. done. Qed.

(** A delimiter cannot start in a piece that has none, even when the piece
    is followed by one. *)
Lemma prefix_delim_app c h rest :
  String.prefix ", " (String c h) = false →
  String.prefix ", " (String c (h +:+ String "," rest)) = false.
Proof.
  rewrite !prefix_cons. case_decide; [|done].
  destruct h as [|b h]; [intros _|];
    rewrite ?str_app_cons, ?str_app_nil_l, !prefix_cons.
  - by rewrite decide_False.
  - by case_decide; rewrite ?prefix_nil.
Qed.

Lemma split_go_cut h cur rest :
  Str.contains ", " h = false →
  Str.split_go ", " 0 cur (h +:+ String "," (String " " rest))
  = (cur +:+ h) :: Str.split_go ", " 0 "" rest.
Proof.
  revert cur. induction h as [|c h IH]; intros cur Hh.
  - rewrite str_app_nil_r. change ("" +:+ ?x) with x.
    by rewrite split_go_step, prefix_delim.
  - rewrite contains_cons in Hh. apply orb_false_elim in Hh as [Hp Hh].
    change (String c h +:+ ?x) with (String c (h +:+ x)).
    rewrite split_go_step, (prefix_delim_app _ _ _ Hp), (IH _ Hh).
    by rewrite snoc_app.
Qed.

Lemma split_go_last h cur :
  Str.contains ", " h = false → Str.split_go ", " 0 cur h = [cur +:+ h].
Proof.
  revert cur. induction h as [|c h IH]; intros cur Hh.
  - by rewrite str_app_nil_r.
  - rewrite contains_cons in Hh. apply orb_false_elim in Hh as [Hp Hh].
    by rewrite split_go_step, Hp, (IH _ Hh), snoc_app.
Qed.

Lemma delim_app s : ", " +:+ s = String "," (String " " s).
Proof. done. Qed.

(** The pieces of a line with one delimiter, and with more. *)
Lemma split_one h field :
  Str.contains ", " h = false → Str.contains ", " field = false →
  Str.split ", " (h +:+ ", " +:+ field) = [h; field].
Proof.
  intros Hh Hf. unfold Str.split.
  by rewrite delim_app, split_go_cut, split_go_last.
Qed.


Lemma contains_app_nl field :
  Str.contains ", " field = false → Str.contains ", " (field +:+ nl) = false.
Proof.
  induction field as [|c h IH]; [done|].
  rewrite contains_cons. intros [Hp Hh]%orb_false_elim.
  rewrite str_app_cons, contains_cons, (IH Hh), orb_false_r.
  revert Hp. rewrite !prefix_cons. case_decide; [|done].
  destruct h as [|b h]; [intros _|];
    rewrite ?str_app_cons, ?str_app_nil_l; unfold nl; rewrite ?prefix_cons.
  - by rewrite decide_False.
  - by case_decide; rewrite ?prefix_nil.
Qed.

(** Stripping newlines *)
Lemma mem_nl c : Str.mem c nl = Ascii.eqb c Str.newline.
Proof. simpl. by rewrite orb_false_r. Qed.

Lemma rstrip_plain s : Str.mem Str.newline s = false → Str.rstrip nl s = s.
Proof.
  induction s as [|c s IH]; [done|]. simpl.
  intros [Hc Hs]%orb_false_elim. rewrite (IH Hs).
  destruct s; [|done]. rewrite orb_false_r, Ascii.eqb_sym. by rewrite Hc.
Qed.

Lemma rstrip_app_nl s : Str.rstrip nl (s +:+ nl) = Str.rstrip nl s.
Proof. induction s as [|c s IH]; [done|]. simpl. by rewrite IH. Qed.

Lemma lstrip_plain s : Str.mem Str.newline s = false → Str.lstrip nl s = s.
Proof.
  destruct s as [|c s]; [done|]. simpl.
  intros [Hc _]%orb_false_elim. rewrite orb_false_r, Ascii.eqb_sym. by rewrite Hc.
Qed.

Lemma lstrip_app_nl s :
  Str.mem Str.newline s = false → s ≠ "" → Str.lstrip nl (s +:+ nl) = s +:+ nl.
Proof.
  destruct s as [|c s]; [done|]. simpl.
  intros [Hc _]%orb_false_elim _. rewrite orb_false_r, Ascii.eqb_sym. by rewrite Hc.
Qed.

Lemma strip_plain s : Str.mem Str.newline s = false → Str.strip nl s = s.
Proof. intros Hs. unfold Str.strip. by rewrite lstrip_plain, rstrip_plain. Qed.

Lemma strip_app_nl s : Str.mem Str.newline s = false → Str.strip nl (s +:+ nl) = s.
Proof.
  intros Hs. unfold Str.strip. destruct (decide (s = "")) as [->|Hne]; [done|].
  by rewrite lstrip_app_nl, rstrip_app_nl, rstrip_plain.
Qed.

(** The lines of a text *)
Lemma lines_go_cut s cur rest :
  Str.mem Str.newline s = false →
  Str.lines_go cur (s +:+ nl +:+ rest) = (cur +:+ s +:+ nl) :: Str.lines_go "" rest.
Proof.
  revert cur. induction s as [|c s IH]; intros cur Hs; [done|].
  simpl in Hs. apply orb_false_elim in Hs as [Hc Hs].
  change (String c s +:+ ?x) with (String c (s +:+ x)). simpl.
  rewrite Ascii.eqb_sym, Hc, (IH _ Hs). by rewrite snoc_app.
Qed.

Lemma lines_go_last s cur :
  Str.mem Str.newline s = false → s ≠ "" → Str.lines_go cur s = [cur +:+ s].
Proof.
  revert cur. induction s as [|c s IH]; intros cur Hs Hne; [done|].
  simpl in Hs. apply orb_false_elim in Hs as [Hc Hs]. simpl.
  rewrite Ascii.eqb_sym, Hc. destruct (decide (s = "")) as [->|Hne'].
  - simpl. unfold Str.snoc. by destruct cur.
  - by rewrite (IH _ Hs Hne'), snoc_app.
Qed.

Lemma mem_app c s1 s2 : Str.mem c (s1 +:+ s2) = Str.mem c s1 || Str.mem c s2.
Proof. induction s1 as [|a s1 IH]; simpl; [done|]. by rewrite IH, orb_assoc. Qed.

End strings.

(** ** Loading the catalog *)

Lemma plain_body h field :
  plain h → plain field →
  Str.mem Str.newline (h +:+ ", " +:+ field) = false ∧ h +:+ ", " +:+ field ≠ "".
Proof.
  intros [_ Hh] [_ Hf]. split.
  - rewrite !mem_app, Hh, Hf. done.
  - destruct h; [by rewrite str_app_nil_l|by rewrite str_app_cons].
Qed.

Lemma entry_line_true e : entry_line e true = (e.1 +:+ ", " +:+ e.2) +:+ nl.
Proof. unfold entry_line. by rewrite !str_app_assoc. Qed.

Lemma entry_line_false e : entry_line e false = e.1 +:+ ", " +:+ e.2.
Proof. unfold entry_line. by rewrite str_app_nil_r. Qed.

(** A line with one delimiter gives its hero to its class. *)
Lemma load_line_entry d e terminated :
  plain e.1 → plain e.2 →
  load_line d (entry_line e terminated) = Ok (match_hero d e.2 e.1).
Proof.
  intros [Hh Hhn] [Hf Hfn]. unfold load_line, entry_line.
  destruct terminated.
  - rewrite split_one by (done || by apply contains_app_nl). simpl.
    by rewrite strip_app_nl.
  - rewrite str_app_nil_r, split_one by done. simpl. by rewrite strip_plain.
Qed.

Lemma lines_go_entry e rest :
  plain e.1 → plain e.2 →
  Str.lines_go "" (entry_line e true +:+ rest) = entry_line e true :: Str.lines_go "" rest.
Proof.
  intros H1 H2. destruct (plain_body _ _ H1 H2) as [Hn _].
  rewrite entry_line_true, str_app_assoc, lines_go_cut by done.
  by rewrite str_app_nil_l.
Qed.

Lemma load_rendered es terminated d :
  well_formed es →
  load_lines d (Str.lines_go "" (render es terminated))
  = Ok (foldl (λ d e, match_hero d e.2 e.1) d es).
Proof.
  intros Hes. revert d. induction Hes as [|e es [H1 H2] _ IH]; intros d; [done|].
  destruct es as [|e' es].
  - simpl. destruct terminated.
    + rewrite <-(str_app_nil_r (entry_line e true)), lines_go_entry by done.
      simpl. by rewrite (load_line_entry d e true).
    + destruct (plain_body _ _ H1 H2) as [Hn Hne].
      rewrite entry_line_false, lines_go_last by done. rewrite str_app_nil_l.
      simpl. rewrite <-entry_line_false. by rewrite load_line_entry.
  - change (render (e :: e' :: es) terminated)
      with (entry_line e true +:+ render (e' :: es) terminated).
    rewrite lines_go_entry by done.
    change (load_lines d (?l :: ?ls)) with (result_bind (load_line d l) (λ d', load_lines d' ls)).
    rewrite load_line_entry by done. simpl result_bind. by rewrite IH.
Qed.

Lemma keys_match_hero (d : Catalog) c h :
  Dict.keys (match_hero d c h)
  = if decide (c ∈ Dict.keys d) then Dict.keys d else Dict.keys d ++ [c].
Proof.
  unfold match_hero. destruct (Dict.get c d) as [l|] eqn:Hg.
  - rewrite decide_True by (apply get_is_Some; eauto).
    by rewrite keys_set_present.
  - rewrite decide_False by (by apply get_None).
    rewrite set_fresh by done. unfold Dict.keys. by rewrite fmap_app.
Qed.

Lemma get_match_hero (d : Catalog) c h k :
  Dict.get k (match_hero d c h)
  = if decide (k = c) then Some (default [] (Dict.get c d) ++ [h]) else Dict.get k d.
Proof.
  unfold match_hero. destruct (Dict.get c d) as [l|] eqn:Hg; by rewrite get_set.
Qed.

Lemma keys_loaded es (d : Catalog) :
  Dict.keys (foldl (λ d e, match_hero d e.2 e.1) d es)
  = Dict.keys d ++ filter (λ c, c ∉ Dict.keys d) (first_occurrences es.*2).
Proof.
  revert d. induction es as [|[h c] es IH]; intros d; csimpl.
  - by rewrite app_nil_r.
  - rewrite IH, keys_match_hero. case_decide as Hc.
    + rewrite filter_cons_False by naive_solver.
      rewrite list_filter_filter. f_equal. apply list_filter_iff. naive_solver.
    + rewrite filter_cons_True by done. rewrite <-(assoc_L (++)). simpl.
      rewrite list_filter_filter. do 2 f_equal. apply list_filter_iff.
      intros k. rewrite elem_of_app, list_elem_of_singleton. naive_solver.
Qed.

Lemma get_loaded es (d : Catalog) k :
  Dict.get k (foldl (λ d e, match_hero d e.2 e.1) d es)
  = if decide (k ∈ Dict.keys d ∨ k ∈ es.*2)
    then Some (default [] (Dict.get k d) ++ heroes_of k es)
    else Dict.get k d.
Proof.
  revert d. induction es as [|[h c] es IH]; intros d; csimpl.
  - unfold heroes_of. simpl. rewrite app_nil_r. case_decide as Hk; [|done].
    destruct Hk as [Hk|Hk]; [|by apply elem_of_nil in Hk].
    apply get_is_Some in Hk as [v Hv]. by rewrite Hv.
  - rewrite IH, keys_match_hero, !get_match_hero. unfold heroes_of.
    destruct (decide (k = c)) as [->|Hne].
    + rewrite filter_cons_True by done. csimpl.
      rewrite !decide_True; [by rewrite <-(assoc_L (++))|set_solver|].
      left. destruct (decide (c ∈ Dict.keys d)); set_solver.
    + rewrite filter_cons_False by naive_solver.
      assert (k ∈ (if decide (c ∈ Dict.keys d) then Dict.keys d else Dict.keys d ++ [c])
              ↔ k ∈ Dict.keys d) as Hkeys.
      { destruct (decide (c ∈ Dict.keys d)); set_solver. }
      destruct (decide (k ∈ Dict.keys d ∨ k ∈ es.*2)) as [Hk|Hk].
      * rewrite !decide_True by set_solver. done.
      * rewrite !decide_False by set_solver. done.
Qed.

Lemma filter_all {A} (P : A → Prop) `{∀ x, Decision (P x)} (l : list A) :
  (∀ x, P x) → filter P l = l.
Proof.
  intros HP. induction l as [|x l IH]; [done|].
  by rewrite filter_cons_True, IH.
Qed.

(** The catalog built from a hero file of single-delimiter lines. *)
Lemma load_heroes_rendered fs cv p es terminated :
  _hero_file_path cv = Some p →
  read_file fs p = Some (render es terminated) →
  well_formed es →
  load_heroes fs cv =
  (Ok tt, with_possible_heroes
            (Some (foldl (λ d e, match_hero d e.2 e.1) [] es)) cv).
Proof.
  intros Hp Hfile Hes. unfold load_heroes. rewrite Hp. simpl.
  assert (p ≠ "") as Hne.
  { intros ->. by unfold read_file in Hfile. }
  rewrite bool_decide_eq_false_2 by done. rewrite Hfile.
  unfold Str.lines. by rewrite load_rendered.
Qed.

(** C4, as amended: for a hero file whose lines each hold a hero name, one
    delimiter and a class field (neither holding a delimiter or a newline,
    the last line with or without its newline), [load_heroes] stores a
    catalog in which the hero names and the class fields are those of the
    lines, unchanged but for the newline (blanks around a class field are
    kept); the keys are the class fields in the order of their first
    occurrences and each class maps to its heroes in the order of the
    lines. *)
Theorem load_heroes_catalog (fs : FileSystem) (cv : ClassVars) (p : string)
    (es : list (string * string)) (terminated : bool) :
  _hero_file_path cv = Some p →
  read_file fs p = Some (render es terminated) →
  well_formed es →
  ∃ d, load_heroes fs cv = (Ok tt, with_possible_heroes (Some d) cv) ∧
       Dict.keys d = first_occurrences es.*2 ∧
       (∀ c, Dict.get c d = if decide (c ∈ es.*2) then Some (heroes_of c es) else None) ∧
       (∀ e d0, e ∈ es →
                load_line d0 (entry_line e true) = Ok (match_hero d0 e.2 e.1) ∧
                load_line d0 (entry_line e false) = Ok (match_hero d0 e.2 e.1)).
Proof.
  intros Hp Hfile Hes. eexists. split_and!.
  - by eapply load_heroes_rendered.
  - rewrite keys_loaded. simpl. apply filter_all. intros c. apply not_elem_of_nil.
  - intros c. rewrite get_loaded. simpl.
    destruct (decide (c ∈ es.*2)) as [Hc|Hc].
    + rewrite decide_True by (by right). done.
    + rewrite decide_False; [done|]. intros [?%elem_of_nil|?]; done.
  - intros e d0 He. unfold well_formed in Hes.
    rewrite Forall_forall in Hes. destruct (Hes e He) as [H1 H2].
    split; by apply load_line_entry.
Qed.

(** C4, as stated, fails: the class field of the line [Bob, Mage ] (a blank
    before the newline) is stored with its blank, where stripping whitespace
    would give [Mage]. *)
Lemma class_field_keeps_blanks :
  ¬ (∀ hero field d,
       plain hero →
       load_line [] (hero +:+ ", " +:+ field) = Ok d →
       Dict.keys d = [spec_class_field field]).
Proof.
  intros Hclaim.
  specialize (Hclaim "Bob" ("Mage " +:+ nl) [("Mage ", ["Bob"])]).
  assert (["Mage "] = ["Mage"]) as Heq; [|discriminate Heq].
  apply Hclaim; [by split|]. vm_compute. reflexivity.
Qed.

Lemma load_heroes_catalog_witness :
  ∃ d, load_heroes disk configured = (Ok tt, with_possible_heroes (Some d) configured) ∧
       Dict.keys d = ["Warrior"; "Special"; "Mage"] ∧
       Dict.get "Warrior" d = Some ["Ann"; "Bob"].
Proof.
  destruct (load_heroes_catalog disk configured "heroes.txt"
              [("Ann", "Warrior"); ("Grognak", "Special"); ("Bob", "Warrior"); ("Cid", "Mage")]
              true) as (d & Hload & Hkeys & Hget & _).
  - reflexivity.
  - reflexivity.
  - repeat constructor.
  - exists d. split_and!; [exact Hload | exact Hkeys | by rewrite Hget].
Defined.

(** ** Lines with more than one delimiter *)

Section remainder.
Implicit Types (s t : string).
Local Arguments Ascii.eqb : simpl never.








End remainder.



(** * Further properties of the module *)

(** ** The loader on arbitrary files *)

Section loader.
Implicit Types (d : Catalog) (line : string).

Lemma split_go_nonempty sep skip cur s : Str.split_go sep skip cur s ≠ [].
Proof.
  revert skip cur. induction s as [|c s IH]; intros skip cur; [done|].
  destruct skip as [|k]; [|apply IH].
  rewrite split_go_step. by destruct (String.prefix sep (String c s)).
Qed.

Lemma split_go_pieces cur s :
  Str.contains ", " s = true → 2 ≤ length (Str.split_go ", " 0 cur s).
Proof.
  revert cur. induction s as [|c s IH]; intros cur; [done|].
  rewrite contains_cons, split_go_step.
  destruct (String.prefix ", " (String c s)) eqn:Hp.
  - intros _. pose proof (split_go_nonempty ", " (String.length ", " - 1) "" s).
    destruct (Str.split_go _ _ _ s); [done|simpl; lia].
  - simpl. apply IH.
Qed.

(** A line is accepted exactly when it holds a delimiter; the only
    exception the loop body raises is the [IndexError] of [heroes[1]]. *)
Lemma load_line_delimited d line :
  Str.contains ", " line = true →
  ∃ field, Str.split ", " line !! 1 = Some field ∧
           load_line d line = Ok (match_hero d (Str.strip nl field) (hero_field line)).
Proof.
  intros Hc. unfold load_line, hero_field, Str.split.
  pose proof (split_go_pieces "" line Hc) as Hlen.
  destruct (Str.split_go ", " 0 "" line) as [|h [|field rest]]; simpl in Hlen; [lia..|].
  by exists field.
Qed.

Lemma load_line_undelimited d line :
  Str.contains ", " line = false → load_line d line = Err IndexError.
Proof. intros Hc. unfold load_line, Str.split. by rewrite split_go_last. Qed.

Lemma load_lines_delimited d ls :
  Forall (λ l, Str.contains ", " l = true) ls → ∃ d', load_lines d ls = Ok d'.
Proof.
  intros Hls. revert d. induction Hls as [|l ls Hl _ IH]; intros d; [by eexists|].
  destruct (load_line_delimited d l Hl) as (field & _ & Hline).
  simpl. rewrite Hline. simpl. apply IH.
Qed.

Lemma load_lines_undelimited d ls :
  Exists (λ l, Str.contains ", " l = false) ls → load_lines d ls = Err IndexError.
Proof.
  intros Hls. revert d. induction ls as [|l ls IH]; intros d; [by apply Exists_nil in Hls|].
  simpl. destruct (Str.contains ", " l) eqn:Hl.
  - destruct (load_line_delimited d l Hl) as (field & _ & ->). simpl. apply IH.
    apply Exists_cons in Hls as [Hls|Hls]; [congruence|done].
  - by rewrite load_line_undelimited.
Qed.

Lemma match_hero_wf d c h : Dict.wf d → Dict.wf (match_hero d c h).
Proof. unfold match_hero. destruct (Dict.get c d); apply wf_set. Qed.

Lemma get_match_hero_nonempty d c h k hs :
  (∀ k hs, Dict.get k d = Some hs → hs ≠ []) →
  Dict.get k (match_hero d c h) = Some hs → hs ≠ [].
Proof.
  intros Hd. rewrite get_match_hero. case_decide; [|apply Hd].
  intros [= <-]. by destruct (default [] (Dict.get c d)).
Qed.

Lemma catalog_heroes_match_hero d c h :
  catalog_heroes (Some (match_hero d c h)) ≡ₚ catalog_heroes (Some d) ++ [h].
Proof.
  unfold match_hero. destruct (Dict.get c d) as [l|] eqn:Hg.
  - apply get_split in Hg as (d1 & d2 & -> & _ & Hset). rewrite Hset. simpl.
    rewrite !fmap_app, !fmap_cons, !concat_app, !concat_cons. simpl.
    rewrite <-!(assoc_L (++)). f_equiv. f_equiv. apply Permutation_app_comm.
  - rewrite set_fresh by done. unfold catalog_heroes.
    rewrite fmap_app, concat_app. by csimpl.
Qed.

(** What the loop keeps true of the dictionary it builds. *)
Lemma load_lines_shape d ls d' :
  load_lines d ls = Ok d' →
  Dict.wf d → (∀ k hs, Dict.get k d = Some hs → hs ≠ []) →
  Dict.wf d' ∧ (∀ k hs, Dict.get k d' = Some hs → hs ≠ []) ∧
  catalog_heroes (Some d') ≡ₚ catalog_heroes (Some d) ++ (hero_field <$> ls).
Proof.
  revert d. induction ls as [|l ls IH]; intros d.
  - intros [= <-] ? ?. by rewrite app_nil_r.
  - simpl. intros (d1 & Hl & Hrest)%result_bind_Ok_inv Hwf Hne.
    destruct (Str.contains ", " l) eqn:Hc; [|by rewrite load_line_undelimited in Hl].
    destruct (load_line_delimited d l Hc) as (field & _ & Hline).
    rewrite Hline in Hl. injection Hl as <-.
    destruct (IH _ Hrest) as (Hwf' & Hne' & Hp).
    + by apply match_hero_wf.
    + intros k hs. by apply get_match_hero_nonempty.
    + split_and!; [done..|]. rewrite Hp, catalog_heroes_match_hero.
      by rewrite <-(assoc_L (++)).
Qed.

End loader.

Lemma path_set_not_unset cv fs p text :
  _hero_file_path cv = Some p → read_file fs p = Some text →
  load_heroes fs cv =
  match load_lines [] (Str.lines text) with
  | Ok d => (Ok tt, with_possible_heroes (Some d) cv)
  | Err e => (Err e, cv)
  end.
Proof.
  intros Hp Hfile. unfold load_heroes. rewrite Hp. simpl.
  assert (p ≠ "") as Hne by (intros ->; by unfold read_file in Hfile).
  rewrite bool_decide_eq_false_2 by done. rewrite Hfile.
  by destruct (load_lines [] (Str.lines text)).
Qed.

(** X1: a catalog stored by [load_heroes] has no class twice among its keys
    and no class without a hero, whatever the file holds. *)
Theorem load_heroes_keys_distinct (fs : FileSystem) (cv cv' : ClassVars) :
  load_heroes fs cv = (Ok tt, cv') →
  ∃ d, _possible_heroes cv' = Some d ∧
       NoDup (Dict.keys d) ∧
       (∀ key hs, Dict.get key d = Some hs → hs ≠ []) ∧
       (∀ key, key ∈ Dict.keys d ↔ ∃ h hs, Dict.get key d = Some (h :: hs)).
Proof.
  intros (p & text & d & _ & _ & Hd & ->)%load_heroes_Ok_inv.
  destruct (load_lines_shape [] _ d Hd) as (Hwf & Hne & _);
    [apply NoDup_nil_2 | done |].
  exists d. split_and!; [done..|].
  intros key. rewrite <-get_is_Some. split.
  - intros [[|h hs] Hg]; [by destruct (Hne key [] Hg) | eauto].
  - intros (h & hs & ->). eauto.
Qed.

Lemma load_heroes_keys_distinct_witness :
  ∃ d, _possible_heroes loaded = Some d ∧ NoDup (Dict.keys d).
Proof.
  destruct (load_heroes_keys_distinct disk configured loaded) as (d & Hd & Hnd & _).
  - reflexivity.
  - by exists d.
Defined.

(** X2: the heroes of a catalog just loaded are the hero fields of the
    lines of the file, each line giving one hero: a name on several lines is
    in the catalog as many times, and the catalog that was there before
    plays no part. *)
Theorem load_heroes_one_hero_per_line (fs : FileSystem) (cv cv' : ClassVars) :
  load_heroes fs cv = (Ok tt, cv') →
  ∃ p text,
    _hero_file_path cv = Some p ∧ read_file fs p = Some text ∧
    catalog_heroes (_possible_heroes cv') ≡ₚ hero_field <$> Str.lines text ∧
    length (catalog_heroes (_possible_heroes cv')) = length (Str.lines text) ∧
    _hero_file_path cv' = _hero_file_path cv ∧
    _team_size cv' = _team_size cv ∧
    _allow_special_class cv' = _allow_special_class cv.
Proof.
  intros (p & text & d & Hp & Hfile & Hd & ->)%load_heroes_Ok_inv.
  destruct (load_lines_shape [] _ d Hd) as (_ & _ & Hperm);
    [apply NoDup_nil_2 | done |].
  exists p, text. simpl in *. split_and!; try done.
  by rewrite Hperm, length_fmap.
Qed.

Lemma load_heroes_one_hero_per_line_witness :
  ∃ p text,
    _hero_file_path configured = Some p ∧ read_file disk p = Some text ∧
    length (catalog_heroes (_possible_heroes loaded)) = length (Str.lines text).
Proof.
  destruct (load_heroes_one_hero_per_line disk configured loaded)
    as (p & text & Hp & Hfile & _ & Hlen & _).
  - reflexivity.
  - by exists p, text.
Defined.

(** X3: with the path set and the file read as the text [text] (a file
    that opens and decodes; one that does not is outside the model),
    [load_heroes] raises exactly when some line of the text holds no
    delimiter (a blank line is enough), the exception is [IndexError] and
    the class variables are as before; when every line holds a delimiter it
    returns. *)
Theorem load_heroes_needs_delimiters (fs : FileSystem) (cv : ClassVars)
    (p text : string) :
  _hero_file_path cv = Some p →
  read_file fs p = Some text →
  (Exists (λ l, Str.contains ", " l = false) (Str.lines text) →
   load_heroes fs cv = (Err IndexError, cv)) ∧
  (Forall (λ l, Str.contains ", " l = true) (Str.lines text) →
   ∃ d, load_heroes fs cv = (Ok tt, with_possible_heroes (Some d) cv)) ∧
  (∀ e cv', load_heroes fs cv = (Err e, cv') → e = IndexError ∧ cv' = cv).
Proof.
  intros Hp Hfile. rewrite (path_set_not_unset cv fs p text Hp Hfile).
  split_and!.
  - intros Hex. by rewrite load_lines_undelimited.
  - intros Hall. destruct (load_lines_delimited [] _ Hall) as [d ->]. by exists d.
  - intros e cv'. destruct (load_lines [] (Str.lines text)) as [d|e'] eqn:Hl; [done|].
    intros [= <- <-]. split; [|done].
    destruct (decide (Forall (λ l, Str.contains ", " l = true) (Str.lines text)))
      as [Hall|Hex].
    + destruct (load_lines_delimited [] _ Hall) as [d Hd]. congruence.
    + apply not_Forall_Exists in Hex; [|apply _].
      rewrite load_lines_undelimited in Hl; [congruence|].
      eapply Exists_impl; [done|]. simpl. intros l Hl'. by destruct (Str.contains ", " l).
Qed.

Lemma load_heroes_needs_delimiters_witness :
  load_heroes gapped_disk configured = (Err IndexError, configured) ∧
  ∃ d, load_heroes disk configured = (Ok tt, with_possible_heroes (Some d) configured).
Proof.
  destruct (load_heroes_needs_delimiters gapped_disk configured "heroes.txt" gapped_txt)
    as (Hbad & _ & _); [reflexivity..|].
  destruct (load_heroes_needs_delimiters disk configured "heroes.txt" heroes_txt)
    as (_ & Hgood & _); [reflexivity..|].
  split.
  - apply Hbad. apply Exists_cons. right. apply Exists_cons. left. reflexivity.
  - apply Hgood. repeat constructor.
Defined.

(** ** [choose_hero] as a whole *)


Lemma draw_Err_inv r1 r2 cv t e :
  draw r1 r2 cv t = Err e →
  (e = TypeError ∧ _possible_heroes cv = None ∧ _possible_classes t ≠ []) ∨
  (e = KeyError ∧ ∃ d key, _possible_heroes cv = Some d ∧
                           key ∈ _possible_classes t ∧ Dict.get key d = None) ∨
  (e = IndexError ∧ ∀ key, ¬ available cv t key).
Proof.
  unfold draw.
  destruct (keys_to_choose_from (_possible_heroes cv) (_possible_classes t))
    as [ks|e'] eqn:Hks; simpl.
  - destruct (choice ks r1) as [k|e'] eqn:Hk; simpl.
    + destruct (_possible_heroes cv) as [d|] eqn:Hd.
      * destruct (keys_to_choose_from_elem d _ ks k Hks (choice_elem _ _ _ Hk))
          as (_ & h & hs & Hg).
        unfold subscript. rewrite Hg. cbn [of_option result_bind].
        destruct (choice_nonempty (h :: hs) r2) as [h' ->]; done.
      * destruct (_possible_classes t); [|done]. injection Hks as <-. done.
    + apply choice_Err in Hk as [-> ->]. intros [= <-]. right. right.
      split; [done|]. intros key (Hin & d & h & hs & Hd & Hg).
      rewrite Hd in Hks.
      by apply (keys_to_choose_from_available d _ [] key h hs Hks Hin) in Hg;
        apply elem_of_nil in Hg.
  - intros [= <-].
    apply keys_to_choose_from_Err in Hks as [(? & ? & ?)|(d & k & ? & ? & ? & ?)].
    + by left.
    + right. left. split; [done|]. by exists d, k.
Qed.

(** X4: [choose_hero] is all or nothing.  When it raises, the class
    variables and the team are exactly as before the call, and the exception
    tells why: [TypeError] when no catalog is loaded, [KeyError] when a
    class of the team's list is not a key of the catalog, [IndexError] when
    no class of the list has a hero left. *)
Theorem choose_hero_all_or_nothing (r1 r2 : nat) (cv : ClassVars) (t : Team)
    (e : exn) (st : ClassVars * Team) :
  choose_hero r1 r2 (cv, t) = (Err e, st) →
  st = (cv, t) ∧
  ((e = TypeError ∧ _possible_heroes cv = None ∧ _possible_classes t ≠ []) ∨
   (e = KeyError ∧ ∃ d key, _possible_heroes cv = Some d ∧
                            key ∈ _possible_classes t ∧ Dict.get key d = None) ∨
   (e = IndexError ∧ ∀ key, ¬ available cv t key)).
Proof.
  destruct (draw r1 r2 cv t) as [[k h]|e'] eqn:Hdraw.
  - destruct (choose_hero_Ok _ _ _ _ _ _ Hdraw) as (? & ? & ? & ? & _ & _ & _ & _ & ->).
    done.
  - rewrite (choose_hero_Err _ _ _ _ _ Hdraw). intros [= <- <-].
    split; [done|]. by apply (draw_Err_inv r1 r2).
Qed.

Lemma choose_hero_all_or_nothing_witness :
  (IndexError = TypeError ∧ _possible_heroes spent_vars = None ∧
     _possible_classes spent_team ≠ []) ∨
  (IndexError = KeyError ∧ ∃ d key, _possible_heroes spent_vars = Some d ∧
     key ∈ _possible_classes spent_team ∧ Dict.get key d = None) ∨
  (IndexError = IndexError ∧ ∀ key, ¬ available spent_vars spent_team key).
Proof.
  apply (choose_hero_all_or_nothing 0 0 spent_vars spent_team IndexError
           (spent_vars, spent_team)).
  reflexivity.
Defined.

(** X5: when [choose_hero] returns, the catalog has the same keys in the
    same order (a class left without heroes stays, with an empty list), the
    list of the class drawn has lost the hero drawn and nothing else, the
    lists of the other classes, the file path, the team size and the flag
    are untouched, and the team keeps its name and its roll. *)
Theorem choose_hero_frame (r1 r2 : nat) (cv cv' : ClassVars) (t t' : Team) :
  choose_hero r1 r2 (cv, t) = (Ok tt, (cv', t')) →
  ∃ key hero d d' hs hs',
    draw r1 r2 cv t = Ok (key, hero) ∧
    _possible_heroes cv = Some d ∧ _possible_heroes cv' = Some d' ∧
    Dict.keys d' = Dict.keys d ∧
    Dict.get key d = Some hs ∧ Dict.get key d' = Some hs' ∧
    list_remove hero hs = Ok hs' ∧ length hs = S (length hs') ∧
    (∀ k, k ≠ key → Dict.get k d' = Dict.get k d) ∧
    _hero_file_path cv' = _hero_file_path cv ∧
    _team_size cv' = _team_size cv ∧
    _allow_special_class cv' = _allow_special_class cv ∧
    _name t' = _name t ∧ _roll t' = _roll t ∧
    _heroes t' = _heroes t ++ [hero] ∧
    list_remove key (_possible_classes t) = Ok (_possible_classes t').
Proof.
  destruct (draw r1 r2 cv t) as [[k h]|e] eqn:Hdraw;
    [|by rewrite (choose_hero_Err _ _ _ _ _ Hdraw)].
  destruct (choose_hero_Ok _ _ _ _ _ _ Hdraw)
    as (d & hs & hs' & classes' & Hd & Hg & Hrm & Hcl & ->).
  intros [= <- <-]. exists k, h, d, (Dict.set k hs' d), hs, hs'.
  split_and!; try done.
  - apply keys_set_present. eauto.
  - rewrite get_set. by rewrite decide_True.
  - by apply list_remove_Ok in Hrm as (_ & _ & ? & _).
  - intros k' Hk'. rewrite get_set. by rewrite decide_False.
Qed.

Lemma choose_hero_frame_witness :
  ∃ (key hero : string) (d d' : Catalog) (hs hs' : list string),
    draw 1 1 loaded ada = Ok (key, hero) ∧
    _possible_heroes loaded = Some d ∧
    Dict.keys d' = Dict.keys d ∧
    Dict.get key d = Some hs ∧ Dict.get key d' = Some hs' ∧
    length hs = S (length hs').
Proof.
  destruct (choose_hero_frame 1 1 loaded (choose_hero 1 1 (loaded, ada)).2.1
              ada (choose_hero 1 1 (loaded, ada)).2.2)
    as (key & hero & d & d' & hs & hs' & H1 & H2 & _ & H4 & H5 & H6 & _ & H8 & _).
  - reflexivity.
  - by exists key, hero, d, d', hs, hs'.
Defined.






(** ** What holds in every session *)

Lemma exec_class_only (o : op) (s : Session) :
  match o with
  | SetHeroFile _ _ | LoadHeroes _ | DisallowSpecial | SetTeamSize _ => True
  | _ => False
  end → teams (exec o s).2 = teams s.
Proof. destruct o; try done; intros _; simpl; apply exec_on_class_teams. Qed.

Lemma exec_tidy (o : op) (s : Session) : tidy s → tidy (exec o s).2.
Proof.
  intros (Hwf & Hcl & Hld).
  destruct o as [fs p|fs| |n|fs name r|i r|i r1 r2].
  - simpl. unfold on_class, set_hero_file.
    destruct (negb (isfile fs p)); simpl; by split_and!.
  - simpl. unfold on_class.
    destruct (load_heroes fs (cvars s)) as [[[]|e] cv] eqn:Hload; simpl.
    + destruct (load_heroes_Ok_inv _ _ _ Hload) as (? & ? & d & _ & _ & Hd & ->).
      split_and!; [|done|done]. simpl. intros d' [= <-].
      by destruct (load_lines_shape [] _ d Hd) as (? & _); [apply NoDup_nil_2|..].
    + rewrite (load_heroes_Err_frame _ _ _ _ Hload). by split_and!.
  - rewrite exec_DisallowSpecial. simpl. split_and!; [|done|].
    + intros d. destruct (_possible_heroes (cvars s)) as [d0|]; simpl; [|done].
      intros [= <-]. by apply wf_del, Hwf.
    + intros Hne. specialize (Hld Hne). by destruct (_possible_heroes (cvars s)).
  - simpl. unfold on_class. rewrite set_team_size_guard.
    destruct (_ || _); simpl; by split_and!.
  - rewrite exec_NewTeam. pose proof (Team_init_spec fs name r (cvars s)) as Hspec.
    destruct (Team_init fs name r (cvars s)) as [[t|e] cv]; simpl.
    + destruct Hspec as (d0 & Hd0 & -> & ->). simpl.
      assert (Dict.wf d0) as Hwf0.
      { destruct Hd0 as [Hd0|[_ Hload]]; [by apply Hwf|].
        destruct (load_heroes_Ok_inv _ _ _ Hload) as (? & ? & d & _ & _ & Hd & Heq).
        assert (d0 = d) as -> by (by destruct (cvars s); simplify_eq/=).
        by destruct (load_lines_shape [] _ d Hd) as (? & _); [apply NoDup_nil_2|..]. }
      assert (Dict.wf (if _allow_special_class (cvars s)
                       then d0 else Dict.del "Special" d0)) as Hwf1.
      { destruct (_allow_special_class (cvars s)); [done|by apply wf_del]. }
      split_and!; [by intros d [= <-] | | done].
      intros t [Ht| ->%list_elem_of_singleton]%elem_of_app; [by apply Hcl|done].
    + destruct Hspec as (-> & _). by split_and!.
  - destruct (teams s !! i) as [t|] eqn:Hi.
    + rewrite (exec_Reroll _ _ _ _ Hi). simpl. split_and!; [done| |].
      * intros t' [Ht'| ->]%elem_of_insert_inv; [by apply Hcl|].
        simpl. apply Hcl. by eapply list_elem_of_lookup_2.
      * intros _. apply Hld. intros Hnil. by rewrite Hnil in Hi.
    + by rewrite (exec_Reroll_absent _ _ _ Hi).
  - destruct (teams s !! i) as [t|] eqn:Hi.
    + destruct (draw r1 r2 (cvars s) t) as [[k h]|e] eqn:Hdraw.
      * destruct (exec_draft_Ok _ _ _ _ _ _ _ Hi Hdraw)
          as (d & hs & hs' & classes' & Hd & _ & _ & Hrm & ->).
        simpl. split_and!; [| |done].
        -- intros d' [= <-]. by apply wf_set, Hwf.
        -- intros t' [Ht'| ->]%elem_of_insert_inv; [by apply Hcl|]. simpl.
           eapply list_remove_NoDup; [|done]. apply Hcl.
           by eapply list_elem_of_lookup_2.
      * rewrite (exec_draft_Err _ _ _ _ _ _ Hi Hdraw). by split_and!.
    + rewrite (exec_draft_absent _ _ _ _ Hi). by split_and!.
Qed.

Lemma run_tidy (tr : list op) (s : Session) : tidy s → tidy (run tr s).
Proof.
  revert s. induction tr as [|o tr IH]; intros s Hs; [done|].
  simpl. by apply IH, exec_tidy.
Qed.

(** X7: in every session reached from the import of the module, by any
    calls in any order (loading again and excluding the class Special late
    included), the catalog has no key twice, no team lists a class twice,
    and the catalog is loaded as soon as a team exists. *)
Theorem sessions_are_tidy (tr : list op) (t : Team) :
  let s := run tr fresh_session in
  t ∈ teams s →
  NoDup (_possible_classes t) ∧
  ∃ d, _possible_heroes (cvars s) = Some d ∧ NoDup (Dict.keys d).
Proof.
  intros s Ht.
  assert (tidy s) as (Hwf & Hcl & Hld).
  { apply run_tidy. split_and!; [done| |done]. by intros t' ?%elem_of_nil. }
  split; [by apply Hcl|].
  destruct (_possible_heroes (cvars s)) as [d|] eqn:Hd.
  - exists d. split; [done|]. by apply Hwf.
  - destruct Hld; [|done]. intros Hnil. rewrite Hnil in Ht. by apply elem_of_nil in Ht.
Qed.

Lemma sessions_are_tidy_witness :
  NoDup ["Mage"] ∧
  ∃ d, _possible_heroes (cvars (run (setup ++ in_turn) fresh_session)) = Some d ∧
       NoDup (Dict.keys d).
Proof.
  apply (sessions_are_tidy (setup ++ in_turn)
           {| _name := "ada"; _roll := 7;
              _possible_classes := ["Mage"]; _heroes := ["Bob"; "Grognak"] |}).
  apply (list_elem_of_lookup_2 _ 0). reflexivity.
Defined.

Lemma list_remove_sublist `{EqDecision A} (x : A) (l l' : list A) :
  list_remove x l = Ok l' → l' `sublist_of` l.
Proof.
  revert l'. induction l as [|y l IH]; intros l'; simpl; [done|].
  destruct (decide (x = y)).
  - intros [= ->]. by apply sublist_cons.
  - intros (l'' & Hl & [= <-])%result_bind_Ok_inv. apply sublist_skip. by apply IH.
Qed.

Lemma grown_refl t : grown t t.
Proof. by split_and!. Qed.

Lemma grown_trans t1 t2 t3 : grown t1 t2 → grown t2 t3 → grown t1 t3.
Proof.
  intros (Hn & Hh & Hc & Hl) (Hn' & Hh' & Hc' & Hl'). split_and!.
  - congruence.
  - by etrans.
  - by etrans.
  - lia.
Qed.

Lemma exec_grown (o : op) (s : Session) (i : nat) (t : Team) :
  teams s !! i = Some t →
  ∃ t', teams (exec o s).2 !! i = Some t' ∧ grown t t'.
Proof.
  intros Hi.
  destruct o as [fs p|fs| |n|fs name r|j r|j r1 r2];
    try (exists t; split; [by rewrite exec_class_only|apply grown_refl]).
  - rewrite exec_NewTeam.
    destruct (Team_init fs name r (cvars s)) as [[t0|e] cv]; simpl.
    + exists t. split; [by apply lookup_app_l_Some|apply grown_refl].
    + exists t. split; [done|apply grown_refl].
  - destruct (teams s !! j) as [tj|] eqn:Hj.
    + rewrite (exec_Reroll _ _ _ _ Hj). simpl. destruct (decide (j = i)) as [->|Hne].
      * rewrite Hi in Hj. injection Hj as <-. eexists.
        rewrite list_lookup_insert_eq by (by eapply lookup_lt_Some).
        split; [done|]. by split_and!.
      * exists t. rewrite list_lookup_insert_ne by done. split; [done|apply grown_refl].
    + rewrite (exec_Reroll_absent _ _ _ Hj). exists t. split; [done|apply grown_refl].
  - destruct (teams s !! j) as [tj|] eqn:Hj.
    + destruct (draw r1 r2 (cvars s) tj) as [[k h]|e] eqn:Hdraw.
      * destruct (exec_draft_Ok _ _ _ _ _ _ _ Hj Hdraw)
          as (d & hs & hs' & classes' & _ & _ & _ & Hrm & ->).
        simpl. destruct (decide (j = i)) as [->|Hne].
        -- rewrite Hi in Hj. injection Hj as <-. eexists.
           rewrite list_lookup_insert_eq by (by eapply lookup_lt_Some).
           split; [done|]. split_and!; simpl.
           ++ done.
           ++ by apply prefix_app_r.
           ++ by eapply list_remove_sublist.
           ++ apply list_remove_Ok in Hrm as (_ & _ & Hlen & _).
              rewrite length_app. simpl. lia.
        -- exists t. rewrite list_lookup_insert_ne by done.
           split; [done|apply grown_refl].
      * rewrite (exec_draft_Err _ _ _ _ _ _ Hj Hdraw). exists t.
        split; [done|apply grown_refl].
    + rewrite (exec_draft_absent _ _ _ _ Hj). exists t. split; [done|apply grown_refl].
Qed.

(** X8: through any calls whatever, a team is never removed and never
    renamed, it keeps the heroes it has, in order, and the classes left on
    its list stay in their order; the number of its heroes plus the number
    of classes on its list never changes, so a team can never hold more
    heroes than the catalog had classes when it was created (the team size
    is not what bounds it). *)
Theorem teams_only_grow (tr : list op) (s : Session) (i : nat) (t : Team) :
  teams s !! i = Some t →
  ∃ t', teams (run tr s) !! i = Some t' ∧
        _name t' = _name t ∧
        _heroes t `prefix_of` _heroes t' ∧
        _possible_classes t' `sublist_of` _possible_classes t ∧
        length (_heroes t') + length (_possible_classes t')
          = length (_heroes t) + length (_possible_classes t).
Proof.
  revert s t. induction tr as [|o tr IH]; intros s t Hi.
  - exists t. split; [done|apply grown_refl].
  - destruct (exec_grown o s i t Hi) as (t1 & Hi1 & Hg1).
    destruct (IH _ _ Hi1) as (t' & Hi' & Hg').
    exists t'. split; [done|]. by apply (grown_trans t t1 t').
Qed.

Lemma teams_only_grow_witness :
  ∃ t', teams (run in_turn two_teams) !! 0 = Some t' ∧
        _name t' = "ada" ∧
        length (_heroes t') + length (_possible_classes t') = 0 + 3.
Proof.
  destruct (teams_only_grow in_turn two_teams 0
              {| _name := "ada"; _roll := 7;
                 _possible_classes := ["Warrior"; "Special"; "Mage"]; _heroes := [] |})
    as (t' & Hi & Hn & _ & _ & Hlen).
  - reflexivity.
  - by exists t'.
Defined.

(** ** The team size *)

Lemma exec_team_size (o : op) (s : Session) :
  _team_size (cvars (exec o s).2) =
  match o with
  | SetTeamSize n =>
      if bool_decide (_team_size (cvars s) = 3%Z) || bool_decide (_team_size (cvars s) = 4%Z)
      then n else _team_size (cvars s)
  | _ => _team_size (cvars s)
  end.
Proof.
  destruct o as [fs p|fs| |n|fs name r|i r|i r1 r2].
  - simpl. unfold on_class, set_hero_file. by destruct (negb (isfile fs p)).
  - simpl. unfold on_class.
    destruct (load_heroes fs (cvars s)) as [[[]|e] cv] eqn:Hload; simpl.
    + by destruct (load_heroes_Ok_inv _ _ _ Hload) as (? & ? & d & _ & _ & _ & ->).
    + by rewrite (load_heroes_Err_frame _ _ _ _ Hload).
  - by rewrite exec_DisallowSpecial.
  - simpl. unfold on_class. rewrite set_team_size_guard. by destruct (_ || _).
  - rewrite exec_NewTeam. pose proof (Team_init_spec fs name r (cvars s)) as Hspec.
    destruct (Team_init fs name r (cvars s)) as [[t|e] cv]; simpl.
    + by destruct Hspec as (d0 & _ & -> & _).
    + by destruct Hspec as (-> & _).
  - destruct (teams s !! i) as [t|] eqn:Hi.
    + by rewrite (exec_Reroll _ _ _ _ Hi).
    + by rewrite (exec_Reroll_absent _ _ _ Hi).
  - destruct (teams s !! i) as [t|] eqn:Hi.
    + destruct (draw r1 r2 (cvars s) t) as [[k h]|e] eqn:Hdraw.
      * by destruct (exec_draft_Ok _ _ _ _ _ _ _ Hi Hdraw) as (? & ? & ? & ? & _ & _ & _ & _ & ->).
      * by rewrite (exec_draft_Err _ _ _ _ _ _ Hi Hdraw).
    + by rewrite (exec_draft_absent _ _ _ _ Hi).
Qed.

Lemma exec_SetTeamSize n s :
  (exec (SetTeamSize n) s).1 =
  if bool_decide (_team_size (cvars s) = 3%Z) || bool_decide (_team_size (cvars s) = 4%Z)
  then Ok tt else Err ValueError.
Proof. simpl. unfold on_class. rewrite set_team_size_guard. by destruct (_ || _). Qed.

Lemma size_guard_false (n : Z) :
  n ≠ 3%Z → n ≠ 4%Z → bool_decide (n = 3%Z) || bool_decide (n = 4%Z) = false.
Proof. intros. by rewrite !bool_decide_eq_false_2. Qed.

Lemma size_guard_true (n : Z) :
  size_allowed n → bool_decide (n = 3%Z) || bool_decide (n = 4%Z) = true.
Proof. intros [-> | ->]; done. Qed.

(** X9: once a size other than 3 and 4 is stored (which one call of
    [set_team_size] with such an argument does), it is there for good:
    whatever the calls that follow, the stored size does not change and
    every [set_team_size], also with 3 or 4, raises [ValueError]. *)
Theorem team_size_stuck (tr : list op) (s : Session) :
  _team_size (cvars s) ≠ 3%Z →
  _team_size (cvars s) ≠ 4%Z →
  _team_size (cvars (run tr s)) = _team_size (cvars s) ∧
  ∀ k n, tr !! k = Some (SetTeamSize n) → outcomes tr s !! k = Some (Err ValueError).
Proof.
  revert s. induction tr as [|o tr IH]; intros s H3 H4; [done|].
  assert (_team_size (cvars (exec o s).2) = _team_size (cvars s)) as Hkeep.
  { rewrite exec_team_size. destruct o; try done. by rewrite size_guard_false. }
  destruct (IH (exec o s).2) as [Hsize Hout]; [by rewrite Hkeep..|].
  split; [simpl; by rewrite Hsize|].
  intros [|k] n Hk; simpl in *; [|by eapply Hout].
  injection Hk as ->. by rewrite exec_SetTeamSize, size_guard_false.
Qed.

Lemma team_size_stuck_witness :
  _team_size (cvars (run [SetTeamSize 3; SetTeamSize 4]
                         (run [SetTeamSize 5] fresh_session))) = 5%Z ∧
  outcomes [SetTeamSize 3; SetTeamSize 4] (run [SetTeamSize 5] fresh_session) !! 1
    = Some (Err ValueError).
Proof.
  destruct (team_size_stuck [SetTeamSize 3; SetTeamSize 4]
              (run [SetTeamSize 5] fresh_session)) as [Hsize Hout]; [done..|].
  split; [exact Hsize|]. by apply (Hout 1 4%Z).
Defined.

(** X10: from a stored size of 3 or 4, as long as every [set_team_size]
    call is given 3 or 4, none of them raises, each stores its argument, and
    the stored size is 3 or 4 throughout, whatever other calls are made in
    between. *)
Theorem team_size_allowed (tr : list op) (s : Session) :
  size_allowed (_team_size (cvars s)) →
  sizes_allowed tr →
  size_allowed (_team_size (cvars (run tr s))) ∧
  ∀ k n, tr !! k = Some (SetTeamSize n) →
         outcomes tr s !! k = Some (Ok tt) ∧
         _team_size (cvars (run (take (S k) tr) s)) = n.
Proof.
  revert s. induction tr as [|o tr IH]; intros s Hs Htr; [done|].
  assert (size_allowed (_team_size (cvars (exec o s).2))) as Hnext.
  { rewrite exec_team_size. destruct o; try done. rewrite size_guard_true by done.
    by apply (Htr 0). }
  destruct (IH (exec o s).2 Hnext) as [Hsize Hout].
  { intros k n Hk. by apply (Htr (S k)). }
  split; [done|].
  intros [|k] n Hk; simpl in *; [|by apply Hout].
  injection Hk as ->. rewrite exec_SetTeamSize, size_guard_true by done.
  split; [done|].
  change (run (take 1 (SetTeamSize n :: tr)) s) with (exec (SetTeamSize n) s).2.
  by rewrite (exec_team_size (SetTeamSize n)), size_guard_true.
Qed.

Lemma team_size_allowed_witness :
  size_allowed (_team_size (cvars (run (SetTeamSize 4 :: setup) fresh_session))) ∧
  outcomes (SetTeamSize 4 :: setup) fresh_session !! 0 = Some (Ok tt).
Proof.
  destruct (team_size_allowed (SetTeamSize 4 :: setup) fresh_session) as [Hsize Hout].
  - by left.
  - intros [|[|[|[|k]]]] n Hk; simplify_eq/=. by right.
  - split; [exact Hsize|]. by apply (Hout 0 4%Z).
Defined.

(** ** Creating teams *)



(** X12: the first team, created with no catalog loaded, loads it: when
    [load_heroes] raises, the exception comes out of the constructor as it
    is, no team is added to the session and nothing has changed; when it
    returns, the team is created on the catalog just loaded. *)
Theorem first_team_loads (fs : FileSystem) (team_name : string) (r : nat)
    (s : Session) :
  _possible_heroes (cvars s) = None →
  (∀ e, (load_heroes fs (cvars s)).1 = Err e →
        exec (NewTeam fs team_name r) s = (Err e, s)) ∧
  ((load_heroes fs (cvars s)).1 = Ok tt →
   ∃ t d, exec (NewTeam fs team_name r) s
            = (Ok tt, {| cvars := with_possible_heroes (Some d) (cvars s);
                         teams := teams s ++ [t] |}) ∧
          _possible_classes t = Dict.keys d ∧ _heroes t = [] ∧ _name t = team_name).
Proof.
  intros Hnone. rewrite exec_NewTeam.
  pose proof (Team_init_spec fs team_name r (cvars s)) as Hspec.
  destruct (Team_init fs team_name r (cvars s)) as [[t|e] cv]; split.
  - intros e He. destruct Hspec as (d0 & [Hd0|[_ Hload]] & _); [congruence|].
    by rewrite Hload in He.
  - intros _. destruct Hspec as (d0 & _ & -> & ->). by eexists _, _.
  - intros e' He'. destruct Hspec as (-> & _ & Hload). rewrite Hload in He'.
    injection He' as <-. by rewrite session_eta.
  - destruct Hspec as (_ & _ & Hload). by rewrite Hload.
Qed.

Lemma first_team_loads_witness :
  exec (NewTeam no_disk "ada" 6) path_only = (Err FileNotFoundError, path_only) ∧
  ∃ t d, exec (NewTeam disk "ada" 6) path_only
           = (Ok tt, {| cvars := with_possible_heroes (Some d) (cvars path_only);
                        teams := teams path_only ++ [t] |}).
Proof.
  destruct (first_team_loads no_disk "ada" 6 path_only) as [Herr _]; [reflexivity|].
  destruct (first_team_loads disk "ada" 6 path_only) as [_ Hok]; [reflexivity|].
  split.
  - apply Herr. reflexivity.
  - destruct Hok as (t & d & Hexec & _); [reflexivity|]. by exists t, d.
Defined.

(** ** The prompts of the script *)

Lemma int_3 : int "3" = Ok 3%Z.
Proof. reflexivity. Qed.
Lemma int_4 : int "4" = Ok 4%Z.
Proof. reflexivity. Qed.

Lemma is_size_guard (l : string) :
  bool_decide (l = "3") || bool_decide (l = "4") = true ↔ is_size l.
Proof.
  unfold is_size. rewrite orb_true_iff, !bool_decide_eq_true. done.
Qed.

Lemma ask_team_size_eof n out c cv :
  ask_team_size_turns n (mkProc [] out c cv)
  = (RaisesEOF, mkProc [] (out ++ [size_prompt]) c cv).
Proof. by destruct n. Qed.

Lemma ask_team_size_good n l ls out c cv size :
  (l = "3" ∧ size = 3%Z ∨ l = "4" ∧ size = 4%Z) →
  size_allowed (_team_size cv) →
  ask_team_size_turns n (mkProc (l :: ls) out c cv)
  = (Returns tt, mkProc ls (out ++ [size_prompt]) c (with_team_size size cv)).
Proof.
  intros Hl Hcv.
  assert (ask_team_size_turns n (mkProc (l :: ls) out c cv)
          = call (set_team_size size) (mkProc ls (out ++ [size_prompt]) c cv)) as ->.
  { destruct Hl as [[-> ->]|[-> ->]]; by destruct n. }
  unfold call. simpl. by rewrite set_team_size_guard, size_guard_true.
Qed.

Lemma ask_team_size_bad n l ls out c cv :
  ¬ is_size l →
  ask_team_size_turns (S n) (mkProc (l :: ls) out c cv)
  = ask_team_size_turns n
      (mkProc ls (out ++ [size_prompt; size_retry +:+ nl; "" +:+ nl]) c cv).
Proof.
  intros Hl. rewrite <-is_size_guard in Hl. apply not_true_is_false in Hl.
  change (ask_team_size_turns (S n) (mkProc (l :: ls) out c cv))
    with ((if bool_decide (l = "3") || bool_decide (l = "4")
           then match int l with
                | Ok size => call (set_team_size size)
                | Err e => λ p, (Raises e, p)
                end
           else (stmt print size_retry ;; stmt print "" ;; ask_team_size_turns n)%py)
            (mkProc ls (out ++ [size_prompt]) c cv)).
  rewrite Hl. unfold pbind, print, written. simpl. by rewrite <-!(assoc_L (++)).
Qed.

Lemma ask_team_size_turns_spec (n : nat) (p : Proc) :
  length (stdin p) ≤ n →
  size_allowed (_team_size (cls p)) →
  ∃ bad p',
    Forall (λ l, ¬ is_size l) bad ∧
    length (stdout p') = length (stdout p) + 3 * length bad + 1 ∧
    cursor p' = cursor p ∧
    ((∃ good size,
        ask_team_size_turns n p = (Returns tt, p') ∧
        stdin p = bad ++ good :: stdin p' ∧
        (good = "3" ∧ size = 3%Z ∨ good = "4" ∧ size = 4%Z) ∧
        cls p' = with_team_size size (cls p)) ∨
     (ask_team_size_turns n p = (RaisesEOF, p') ∧
      stdin p = bad ∧ stdin p' = [] ∧ cls p' = cls p)).
Proof.
  destruct p as [ls out c cv]. simpl. revert n out.
  induction ls as [|l ls IH]; intros n out Hlen Hsize.
  - exists [], (mkProc [] (out ++ [size_prompt]) c cv). rewrite ask_team_size_eof.
    split_and!; [done|simpl; rewrite length_app; simpl; lia|done|by right].
  - destruct (decide (is_size l)) as [Hl|Hl].
    + assert (∃ size, l = "3" ∧ size = 3%Z ∨ l = "4" ∧ size = 4%Z) as [size Hls].
      { destruct Hl as [-> | ->]; [exists 3%Z|exists 4%Z]; auto. }
      exists [], (mkProc ls (out ++ [size_prompt]) c (with_team_size size cv)).
      rewrite (ask_team_size_good n l ls out c cv size) by done.
      split_and!; [done|simpl; rewrite length_app; simpl; lia|done|].
      left. by exists l, size.
    + destruct n as [|n]; [simpl in Hlen; lia|].
      rewrite ask_team_size_bad by done.
      destruct (IH n (out ++ [size_prompt; size_retry +:+ nl; "" +:+ nl]))
        as (bad & p' & Hbad & Hout & Hcur & Hres); [simpl in Hlen; lia|done|].
      exists (l :: bad), p'. split_and!.
      * by apply Forall_cons.
      * rewrite Hout, length_app. simpl. lia.
      * done.
      * destruct Hres as [(good & size & -> & Hin & Hgs & Hcls)|(-> & Hin & ? & ?)].
        -- left. exists good, size. by rewrite Hin.
        -- right. by rewrite Hin.
Qed.

(** X13: the team-size prompt passes over every line that is not [3] or
    [4] (three writes for each) and stores the size of the first line that
    is; it ends with [EOFError] when there is no such line, with the stored
    size as it was.  From a stored size of 3 or 4 no exception of the module
    comes out of it: the script never hands [set_team_size] anything but 3
    or 4. *)
Theorem ask_team_size_first_valid (p : Proc) :
  size_allowed (_team_size (cls p)) →
  ∃ bad p',
    Forall (λ l, ¬ is_size l) bad ∧
    length (stdout p') = length (stdout p) + 3 * length bad + 1 ∧
    cursor p' = cursor p ∧
    ((∃ good size,
        ask_team_size p = (Returns tt, p') ∧
        stdin p = bad ++ good :: stdin p' ∧
        (good = "3" ∧ size = 3%Z ∨ good = "4" ∧ size = 4%Z) ∧
        cls p' = with_team_size size (cls p)) ∨
     (ask_team_size p = (RaisesEOF, p') ∧
      stdin p = bad ∧ stdin p' = [] ∧ cls p' = cls p)).
Proof. intros Hsize. by apply ask_team_size_turns_spec. Qed.

Lemma ask_team_size_first_valid_witness :
  ∃ p', ask_team_size (mkProc ["5"; "four"; "4"; "y"] [] 0 class_body) = (Returns tt, p') ∧
        stdin p' = ["y"] ∧ _team_size (cls p') = 4%Z.
Proof.
  destruct (ask_team_size_first_valid (mkProc ["5"; "four"; "4"; "y"] [] 0 class_body))
    as (bad & p' & _ & _ & _ & Hres); [by left|].
  exists p'. destruct Hres as [(good & size & Hrun & _)|(Hrun & _)];
    vm_compute in Hrun; simplify_eq. done.
Defined.

Lemma ask_two_names_eof1 out c cv :
  ask_two_names (mkProc [] out c cv) = (RaisesEOF, mkProc [] (out ++ [name_1_prompt]) c cv).
Proof. done. Qed.

Lemma ask_two_names_eof2 a out c cv :
  ask_two_names (mkProc [a] out c cv)
  = (RaisesEOF, mkProc [] (out ++ [name_1_prompt; name_2_prompt]) c cv).
Proof.
  unfold ask_two_names, pbind, input, written. simpl. by rewrite <-(assoc_L (++)).
Qed.

Lemma ask_two_names_read a b ls out c cv :
  ask_two_names (mkProc (a :: b :: ls) out c cv)
  = (Returns (a, b), mkProc ls (out ++ [name_1_prompt; name_2_prompt]) c cv).
Proof.
  unfold ask_two_names, pbind, input, pret. simpl. by rewrite <-(assoc_L (++)).
Qed.

Lemma ask_names_turns_distinct n names p :
  names.1 ≠ names.2 → ask_names_turns n names p = (Returns names, p).
Proof.
  intros Hne. destruct n; simpl; by rewrite bool_decide_eq_false_2.
Qed.

Lemma ask_names_turns_equal n a ls out c cv :
  ask_names_turns (S n) (a, a) (mkProc ls out c cv)
  = match ask_two_names (mkProc ls (out ++ [names_retry +:+ nl; "" +:+ nl]) c cv) with
    | (Returns names', p') => ask_names_turns n names' p'
    | (Raises e, p') => (Raises e, p')
    | (RaisesEOF, p') => (RaisesEOF, p')
    end.
Proof.
  simpl. rewrite bool_decide_eq_true_2 by done.
  unfold pbind at 1 2 3. unfold print, written. simpl.
  rewrite <-(assoc_L (++)). simpl.
  by destruct (ask_two_names _) as [[[a' b']|e|] p'].
Qed.

Lemma ask_names_turns_spec (n : nat) :
  ∀ ls names out c cv,
    length ls ≤ n →
    match ask_names_turns n names (mkProc ls out c cv) with
    | (Returns (a, b), p') =>
        a ≠ b ∧ cls p' = cv ∧ cursor p' = c ∧
        ((a, b) = names ∧ stdin p' = ls ∨
         ∃ pre, equal_pairs pre ∧ names.1 = names.2 ∧ ls = pre ++ a :: b :: stdin p')
    | (Raises _, _) => False
    | (RaisesEOF, p') => cls p' = cv ∧ cursor p' = c
    end.
Proof.
  induction n as [|n IH]; intros ls [x y] out c cv Hlen.
  - destruct (decide (x = y)) as [->|Hne].
    + destruct ls; [|simpl in Hlen; lia]. simpl.
      rewrite bool_decide_eq_true_2 by done. done.
    + rewrite ask_names_turns_distinct by done. split_and!; [done..|by left].
  - destruct (decide (x = y)) as [->|Hne].
    + rewrite ask_names_turns_equal. destruct ls as [|a [|b ls]].
      * by rewrite ask_two_names_eof1.
      * by rewrite ask_two_names_eof2.
      * rewrite ask_two_names_read.
        specialize (IH ls (a, b) (out ++ [names_retry +:+ nl; "" +:+ nl]
                                      ++ [name_1_prompt; name_2_prompt]) c cv).
        rewrite <-(assoc_L (++)).
        destruct (ask_names_turns n (a, b) _) as [[[a' b']|e|] p']; simpl in *.
        -- destruct IH as (Hne & Hcls & Hcur & Hfrom); [lia|].
           split_and!; [done..|]. right.
           destruct Hfrom as [[[= -> ->] Hin]|(pre & Hpre & Heq & ->)].
           ++ exists []. by rewrite Hin.
           ++ exists (a :: b :: pre). simpl in *. by subst.
        -- apply IH. lia.
        -- apply IH. lia.
    + rewrite ask_names_turns_distinct by done. split_and!; [done..|by left].
Qed.

Lemma ask_names_spec (p : Proc) :
  match ask_names p with
  | (Returns (a, b), p') =>
      a ≠ b ∧ cls p' = cls p ∧ cursor p' = cursor p ∧
      ∃ pre, equal_pairs pre ∧ stdin p = pre ++ a :: b :: stdin p'
  | (Raises _, _) => False
  | (RaisesEOF, p') => cls p' = cls p ∧ cursor p' = cursor p
  end.
Proof.
  destruct p as [ls out c cv]. unfold ask_names, pbind.
  destruct ls as [|a [|b ls]].
  - by rewrite ask_two_names_eof1.
  - by rewrite ask_two_names_eof2.
  - rewrite ask_two_names_read. simpl.
    pose proof (ask_names_turns_spec (length ls) ls (a, b)
                  (out ++ [name_1_prompt; name_2_prompt]) c cv (le_n _)) as Hspec.
    destruct (ask_names_turns _ _ _) as [[[a' b']|e|] p']; [|done..].
    destruct Hspec as (Hne & Hcls & Hcur & Hfrom). split_and!; [done..|].
    destruct Hfrom as [[[= -> ->] Hin]|(pre & Hpre & Heq & ->)].
    + exists []. by rewrite Hin.
    + exists (a :: b :: pre). simpl in *. by subst.
Qed.

(** X14: the names the script goes on with are two different lines read
    one after the other; the lines read before them go two by two, the same
    name twice; the prompt ends with [EOFError] when the input runs out, no
    exception of the module comes out of it, and it touches neither the
    class variables nor the generator. *)
Theorem ask_names_distinct (p : Proc) :
  match ask_names p with
  | (Returns (a, b), p') =>
      a ≠ b ∧ cls p' = cls p ∧ cursor p' = cursor p ∧
      ∃ pre, equal_pairs pre ∧ stdin p = pre ++ a :: b :: stdin p'
  | (Raises _, _) => False
  | (RaisesEOF, p') => cls p' = cls p ∧ cursor p' = cursor p
  end.
Proof. apply ask_names_spec. Qed.

Example ask_names_again :
  (ask_names (mkProc ["cy"; "cy"; "ada"; "bea"; "x"] [] 0 class_body)).1
  = Returns ("ada", "bea").
Proof. reflexivity. Qed.

(** ** The tie loop *)

Lemma Team_eq_rolls a b : Team_eq a b = true ↔ _roll a = _roll b.
Proof. unfold Team_eq. apply bool_decide_eq_true. Qed.

Lemma break_tie_untied rng fuel ts p :
  _roll ts.1 ≠ _roll ts.2 → break_tie rng fuel ts p = (Returns (Some ts), p).
Proof.
  intros Hne. assert (Team_eq ts.1 ts.2 = false) as Heq.
  { apply not_true_is_false. by rewrite Team_eq_rolls. }
  destruct fuel; simpl; by rewrite Heq.
Qed.

Lemma break_tie_spent rng ts p :
  _roll ts.1 = _roll ts.2 → break_tie rng 0 ts p = (Returns None, p).
Proof. intros Heq%Team_eq_rolls. simpl. by rewrite Heq. Qed.

Lemma break_tie_turn rng fuel ts ls out c cv :
  _roll ts.1 = _roll ts.2 →
  break_tie rng (S fuel) ts (mkProc ls out c cv)
  = break_tie rng fuel (reroll (rng c) ts.1, reroll (rng (S c)) ts.2)
      (mkProc ls (out ++ ["" +:+ nl; roll_line ts.1; roll_line ts.2; tie_text +:+ nl])
         (S (S c)) cv).
Proof.
  intros Heq%Team_eq_rolls. simpl. rewrite Heq.
  unfold pbind, print, print_roll, do_reroll, random, written, pret. simpl.
  by rewrite <-!(assoc_L (++)).
Qed.

Lemma rerolled_refl t : rerolled t t.
Proof. done. Qed.

Lemma break_tie_spec rng fuel :
  ∀ ts p,
    match break_tie rng fuel ts p with
    | (Returns (Some ts'), p') =>
        _roll ts'.1 ≠ _roll ts'.2 ∧
        rerolled ts.1 ts'.1 ∧ rerolled ts.2 ts'.2 ∧
        cls p' = cls p ∧ stdin p' = stdin p ∧
        ∃ k, k ≤ fuel ∧ cursor p' = cursor p + 2 * k ∧
             length (stdout p') = length (stdout p) + 4 * k ∧
             (k = 0 → ts' = ts ∧ stdout p' = stdout p) ∧
             (0 < k → (_roll ts'.1, _roll ts'.2) = rolls_at rng (cursor p) (k - 1))
    | (Returns None, p') =>
        cls p' = cls p ∧ stdin p' = stdin p ∧ cursor p' = cursor p + 2 * fuel
    | (Raises _, _) | (RaisesEOF, _) => False
    end.
Proof.
  induction fuel as [|fuel IH]; intros ts [ls out c cv].
  - destruct (decide (_roll ts.1 = _roll ts.2)) as [Heq|Hne].
    + rewrite break_tie_spent by done. simpl. split_and!; [done..|lia].
    + rewrite break_tie_untied by done. split_and!; [done..|].
      exists 0. simpl. split_and!; [lia..|done|lia].
  - destruct (decide (_roll ts.1 = _roll ts.2)) as [Heq|Hne].
    + rewrite break_tie_turn by done.
      specialize (IH (reroll (rng c) ts.1, reroll (rng (S c)) ts.2)
                    (mkProc ls (out ++ ["" +:+ nl; roll_line ts.1; roll_line ts.2;
                                        tie_text +:+ nl]) (S (S c)) cv)).
      destruct (break_tie rng fuel _ _) as [[[ts'|]|e|] p']; simpl in *; [| |done..].
      * destruct IH as (Hne & (? & ? & ?) & (? & ? & ?) & Hcls & Hin & k & Hk & Hcur & Hout & H0 & Hpos).
        split_and!; [done|by split_and!|by split_and!|done|done|].
        exists (S k). split_and!; [lia|lia| |lia|].
        -- rewrite Hout, length_app. simpl. lia.
        -- intros _. destruct k as [|k].
           ++ destruct H0 as [-> _]; [done|]. unfold rolls_at. simpl.
              by rewrite Nat.add_0_r.
           ++ rewrite Hpos by lia. unfold rolls_at. simpl.
              rewrite Nat.sub_0_r. do 2 f_equal; f_equal; lia.
      * destruct IH as (? & ? & ?). split_and!; [done..|lia].
    + rewrite break_tie_untied by done. split_and!; [done..|].
      exists 0. simpl. split_and!; [lia..|done|lia].
Qed.

(** X15: no exception comes out of the tie loop, whatever the draws.  When
    it ends, the two rolls differ and nothing else has changed: the teams
    have their names, class lists and heroes, the class variables and the
    input are untouched; with [k] turns made, [2 k] draws were taken and
    [4 k] lines written, and the rolls are those of the last turn.  As long
    as it runs, it takes two draws a turn and touches neither the class
    variables nor the input. *)
Theorem break_tie_untied_result (rng : nat → nat) (fuel : nat)
    (ts : Team * Team) (p : Proc) :
  match break_tie rng fuel ts p with
  | (Returns (Some ts'), p') =>
      _roll ts'.1 ≠ _roll ts'.2 ∧
      rerolled ts.1 ts'.1 ∧ rerolled ts.2 ts'.2 ∧
      cls p' = cls p ∧ stdin p' = stdin p ∧
      ∃ k, k ≤ fuel ∧ cursor p' = cursor p + 2 * k ∧
           length (stdout p') = length (stdout p) + 4 * k ∧
           (k = 0 → ts' = ts ∧ stdout p' = stdout p) ∧
           (0 < k → (_roll ts'.1, _roll ts'.2) = rolls_at rng (cursor p) (k - 1))
  | (Returns None, p') =>
      cls p' = cls p ∧ stdin p' = stdin p ∧ cursor p' = cursor p + 2 * fuel
  | (Raises _, _) | (RaisesEOF, _) => False
  end.
Proof. exact (break_tie_spec rng fuel ts p). Qed.

Example break_tie_rolls_again :
  (break_tie late_rng 5 (ada, bea) (at_start loaded)).1
  = Returns (Some (reroll 2 ada, reroll 3 bea)) ∧
  cursor (break_tie late_rng 5 (ada, bea) (at_start loaded)).2 = 4.
Proof. split; reflexivity. Qed.

(** X16: the tie loop ends as soon as a turn gives two different rolls:
    if the teams are tied, the first [k] turns tie again and the turn after
    them does not, then with more than [k] turns allowed the loop returns
    the teams with the rolls of that turn, [2 (k + 1)] draws taken. *)
Theorem break_tie_ends (rng : nat → nat) (k fuel : nat) (ts : Team * Team) (p : Proc) :
  _roll ts.1 = _roll ts.2 →
  (∀ j, j < k → (rolls_at rng (cursor p) j).1 = (rolls_at rng (cursor p) j).2) →
  (rolls_at rng (cursor p) k).1 ≠ (rolls_at rng (cursor p) k).2 →
  k < fuel →
  ∃ ts' p', break_tie rng fuel ts p = (Returns (Some ts'), p') ∧
            (_roll ts'.1, _roll ts'.2) = rolls_at rng (cursor p) k ∧
            cursor p' = cursor p + 2 * S k.
Proof.
  revert fuel ts p. induction k as [|k IH]; intros fuel ts [ls out c cv] Heq Hties Hends Hfuel;
    (destruct fuel as [|fuel]; [lia|]); rewrite break_tie_turn by done;
    cbn [cursor] in *.
  - eexists _, _. rewrite break_tie_untied.
    + split_and!; [done| |cbn [cursor]; lia].
      unfold rolls_at. cbn [fst snd reroll _roll]. by rewrite Nat.mul_0_r, Nat.add_0_r.
    + unfold rolls_at in Hends. cbn [fst snd reroll _roll] in *.
      by rewrite Nat.mul_0_r, Nat.add_0_r in Hends.
  - assert (∀ j, rolls_at rng (S (S c)) j = rolls_at rng c (S j)) as Hshift.
    { intros j. unfold rolls_at. do 2 f_equal; f_equal; lia. }
    destruct (IH fuel (reroll (rng c) ts.1, reroll (rng (S c)) ts.2)
                (mkProc ls (out ++ ["" +:+ nl; roll_line ts.1; roll_line ts.2;
                                    tie_text +:+ nl]) (S (S c)) cv))
      as (ts' & p' & Hrun & Hrolls & Hcur).
    + specialize (Hties 0 (Nat.lt_0_succ _)). unfold rolls_at in Hties.
      cbn [fst snd reroll _roll] in *. by rewrite Nat.mul_0_r, Nat.add_0_r in Hties.
    + intros j Hj. cbn [cursor]. rewrite Hshift. apply Hties. lia.
    + cbn [cursor]. by rewrite Hshift.
    + lia.
    + exists ts', p'. rewrite Hrun. cbn [cursor] in *. rewrite Hshift in Hrolls.
      split_and!; [done..|lia].
Qed.

Lemma break_tie_ends_witness :
  ∃ ts' p', break_tie late_rng 5 (ada, bea) (at_start loaded) = (Returns (Some ts'), p') ∧
            (_roll ts'.1, _roll ts'.2) = (3%Z, 4%Z) ∧ cursor p' = 4.
Proof.
  destruct (break_tie_ends late_rng 1 5 (ada, bea) (at_start loaded))
    as (ts' & p' & Hrun & Hrolls & Hcur).
  - reflexivity.
  - intros j Hj. assert (j = 0) as -> by lia. reflexivity.
  - vm_compute. discriminate.
  - lia.
  - by exists ts', p'.
Defined.

(** ** The draft loop *)

Lemma choose_on_Returns (b : bool) rng ts p ts1 p1 :
  choose_on b rng ts p = (Returns ts1, p1) →
  exec (ChooseHero (position b) (rng (cursor p)) (rng (S (cursor p))))
       (pair_session (cls p) ts) = (Ok tt, pair_session (cls p1) ts1) ∧
  (∃ kh, pick_of (ChooseHero (position b) (rng (cursor p)) (rng (S (cursor p))))
                 (pair_session (cls p) ts) = Some (position b, kh)) ∧
  _roll ts1.1 = _roll ts.1 ∧ _roll ts1.2 = _roll ts.2 ∧
  length (_heroes ts1.1) = length (_heroes ts.1) + (if b then 0 else 1) ∧
  length (_heroes ts1.2) = length (_heroes ts.2) + (if b then 1 else 0) ∧
  (if b then ts1.1 = ts.1 else ts1.2 = ts.2) ∧
  stdin p1 = stdin p ∧ stdout p1 = stdout p ∧ cursor p1 = S (S (cursor p)).
Proof.
  destruct p as [ls out c cv], ts as [t1 t2]. unfold choose_on.
  cbn [cls cursor stdin stdout fst snd].
  assert (∀ i t, [t1; t2] !! i = Some t →
            ∀ k h, draw (rng c) (rng (S c)) cv t = Ok (k, h) →
            ∃ cv' t', choose_hero (rng c) (rng (S c)) (cv, t) = (Ok tt, (cv', t')) ∧
                      exec (ChooseHero i (rng c) (rng (S c))) (pair_session cv (t1, t2))
                      = (Ok tt, {| cvars := cv'; teams := <[i := t']> [t1; t2] |}) ∧
                      _roll t' = _roll t ∧
                      length (_heroes t') = length (_heroes t) + 1) as Hboth.
  { intros i t Hi k h Hdraw.
    destruct (exec_draft_Ok (pair_session cv (t1, t2)) i _ _ t k h Hi Hdraw)
      as (d1 & hs1 & hs1' & classes1 & Hd1 & Hg1 & Hrm1 & Hcl1 & Hexec).
    destruct (choose_hero_Ok _ _ _ _ _ _ Hdraw)
      as (d & hs & hs' & classes' & Hd & Hg & Hrm & Hcl & Hch).
    cbn [pair_session cvars fst snd] in *. simplify_eq.
    assert (hs1' = hs') as -> by congruence.
    assert (classes1 = classes') as -> by congruence.
    eexists _, _. split_and!; [exact Hch|exact Hexec|done|].
    cbn. rewrite length_app. simpl. lia. }
  destruct b; cbn [position cls].
  - destruct (draw (rng c) (rng (S c)) cv t2) as [[k h]|e] eqn:Hdraw.
    + destruct (Hboth 1 t2 eq_refl k h Hdraw) as (cv' & t' & Hch & Hexec & Hroll & Hlen).
      rewrite Hch, Hexec. unfold with_cls. cbn -[pick_of]. intros [= <- <-].
      split_and!; try done; try (cbn; lia). cbn. rewrite Hdraw. by eexists.
    + by rewrite (choose_hero_Err _ _ _ _ _ Hdraw).
  - destruct (draw (rng c) (rng (S c)) cv t1) as [[k h]|e] eqn:Hdraw.
    + destruct (Hboth 0 t1 eq_refl k h Hdraw) as (cv' & t' & Hch & Hexec & Hroll & Hlen).
      rewrite Hch, Hexec. unfold with_cls. cbn -[pick_of]. intros [= <- <-].
      split_and!; try done; try (cbn; lia). cbn. rewrite Hdraw. by eexists.
    + by rewrite (choose_hero_Err _ _ _ _ _ Hdraw).
Qed.

Lemma order_by_rolls a b a' b' :
  _roll a' = _roll a → _roll b' = _roll b →
  max_is_second a' b' = max_is_second a b ∧ min_is_second a' b' = min_is_second a b.
Proof. unfold max_is_second, min_is_second, Team_gt, Team_lt. by intros -> ->. Qed.

Lemma min_not_max a b :
  _roll a ≠ _roll b → min_is_second a b = negb (max_is_second a b).
Proof.
  intros Hne. unfold max_is_second, min_is_second, Team_gt, Team_lt.
  destruct (decide (_roll b < _roll a)%Z).
  - rewrite bool_decide_eq_true_2, bool_decide_eq_false_2 by lia. done.
  - rewrite bool_decide_eq_false_2, bool_decide_eq_true_2 by lia. done.
Qed.

Lemma tied_first a b :
  _roll a = _roll b → max_is_second a b = false ∧ min_is_second a b = false.
Proof.
  intros Heq. unfold max_is_second, min_is_second, Team_gt, Team_lt.
  by rewrite !bool_decide_eq_false_2 by lia.
Qed.

Lemma position_negb b : position (negb b) = 1 - position b.
Proof. by destruct b. Qed.

Lemma draft_rounds_step rng n ts p ts' p' :
  draft_rounds rng (S n) ts p = (Returns ts', p') →
  ∃ ts1 p1 ts2 p2,
    choose_on (max_is_second ts.1 ts.2) rng ts p = (Returns ts1, p1) ∧
    choose_on (min_is_second ts1.1 ts1.2) rng ts1 p1 = (Returns ts2, p2) ∧
    draft_rounds rng n ts2 p2 = (Returns ts', p').
Proof.
  cbn [draft_rounds]. unfold pbind at 1.
  destruct (choose_on _ rng ts p) as [[ts1|e|] p1]; [|done..].
  unfold pbind at 1.
  destruct (choose_on _ rng ts1 p1) as [[ts2|e|] p2] eqn:H2; [|done..].
  intros Hrest. exists ts1, p1, ts2, p2. split_and!; done.
Qed.

Lemma draft_rounds_distinct rng n :
  ∀ ts p ts' p',
    _roll ts.1 ≠ _roll ts.2 →
    draft_rounds rng n ts p = (Returns ts', p') →
    let first := position (max_is_second ts.1 ts.2) in
    let s := pair_session (cls p) ts in
    let tr := turns first rng (cursor p) n in
    run tr s = pair_session (cls p') ts' ∧
    (picks tr s).*1 = concat (replicate n [first; 1 - first]) ∧
    length (_heroes ts'.1) = length (_heroes ts.1) + n ∧
    length (_heroes ts'.2) = length (_heroes ts.2) + n ∧
    _roll ts'.1 = _roll ts.1 ∧ _roll ts'.2 = _roll ts.2 ∧
    stdin p' = stdin p ∧ stdout p' = stdout p ∧ cursor p' = cursor p + 4 * n.
Proof.
  induction n as [|n IH]; intros ts p ts' p' Hne Hrun.
  - injection Hrun as <- <-. cbn. split_and!; try done; lia.
  - apply draft_rounds_step in Hrun as (ts1 & p1 & ts2 & p2 & H1 & H2 & Hrest).
    apply choose_on_Returns in H1
      as (He1 & [kh1 Hp1] & Hr11 & Hr12 & Hl11 & Hl12 & _ & Hin1 & Hout1 & Hc1).
    apply choose_on_Returns in H2
      as (He2 & [kh2 Hp2] & Hr21 & Hr22 & Hl21 & Hl22 & _ & Hin2 & Hout2 & Hc2).
    destruct (order_by_rolls ts.1 ts.2 ts1.1 ts1.2 Hr11 Hr12) as [_ Hmin1].
    rewrite Hmin1, (min_not_max _ _ Hne), position_negb in He2, Hp2.
    destruct (order_by_rolls ts.1 ts.2 ts2.1 ts2.2) as [Hmax2 _]; [congruence..|].
    destruct (IH ts2 p2 ts' p') as (Hrun & Hpicks & Hh1 & Hh2 & Hro1 & Hro2 & Hin & Hout & Hc);
      [congruence|done|].
    rewrite Hmax2 in Hrun, Hpicks. rewrite Hc1 in He2, Hp2. rewrite Hc2, Hc1 in Hrun, Hpicks.
    cbn [turns run picks]. rewrite He1. cbn [snd]. rewrite He2. cbn [snd].
    rewrite Hp1, Hp2. cbn [option_list]. rewrite Hrun.
    split_and!; try congruence.
    + cbn. by rewrite Hpicks.
    + rewrite Hh1, Hl21, Hl11, Hmin1, (min_not_max _ _ Hne).
      destruct (max_is_second ts.1 ts.2); simpl; lia.
    + rewrite Hh2, Hl22, Hl12, Hmin1, (min_not_max _ _ Hne).
      destruct (max_is_second ts.1 ts.2); simpl; lia.
    + lia.
Qed.

(** X17: with two different rolls, the draft loop is the two teams
    drafting in turn, the higher roll first in every round: when the loop
    returns after [n] rounds, its result is that of the [2 n] calls of
    [choose_hero] made in that order on the two teams, each of which
    drafted; each team has gained exactly [n] heroes, the rolls are as
    before, nothing was read or written and [4 n] draws were taken. *)
Theorem draft_in_turn (rng : nat → nat) (n : nat) (ts ts' : Team * Team) (p p' : Proc) :
  _roll ts.1 ≠ _roll ts.2 →
  draft_rounds rng n ts p = (Returns ts', p') →
  let first := position (max_is_second ts.1 ts.2) in
  let s := pair_session (cls p) ts in
  let tr := turns first rng (cursor p) n in
  (first = 1 ↔ (_roll ts.1 < _roll ts.2)%Z) ∧
  run tr s = pair_session (cls p') ts' ∧
  (picks tr s).*1 = concat (replicate n [first; 1 - first]) ∧
  length (_heroes ts'.1) = length (_heroes ts.1) + n ∧
  length (_heroes ts'.2) = length (_heroes ts.2) + n ∧
  _roll ts'.1 = _roll ts.1 ∧ _roll ts'.2 = _roll ts.2 ∧
  stdin p' = stdin p ∧ stdout p' = stdout p ∧ cursor p' = cursor p + 4 * n.
Proof.
  intros Hne Hrun. split; [|by apply draft_rounds_distinct].
  unfold max_is_second, Team_gt, position. case_bool_decide; split; (done || lia).
Qed.

Lemma draft_in_turn_witness :
  ∃ ts' p',
    draft_rounds counting 2 (ada, reroll 11 bea) (at_start loaded) = (Returns ts', p') ∧
    length (_heroes ts'.1) = 0 + 2 ∧ length (_heroes ts'.2) = 0 + 2 ∧
    cursor p' = 0 + 4 * 2.
Proof.
  destruct (draft_in_turn counting 2 (ada, reroll 11 bea)
              (returned (draft_rounds counting 2 (ada, reroll 11 bea) (at_start loaded)).1
                        (ada, bea))
              (at_start loaded)
              (draft_rounds counting 2 (ada, reroll 11 bea) (at_start loaded)).2)
    as (_ & _ & _ & H1 & H2 & _ & _ & _ & _ & Hc).
  - vm_compute. discriminate.
  - vm_compute. reflexivity.
  - eexists _, _. split; [vm_compute; reflexivity|].
    split_and!; [exact H1|exact H2|exact Hc].
Defined.

Lemma draft_rounds_tied rng n :
  ∀ ts p ts' p',
    _roll ts.1 = _roll ts.2 →
    draft_rounds rng n ts p = (Returns ts', p') →
    ts'.2 = ts.2 ∧
    length (_heroes ts'.1) = length (_heroes ts.1) + 2 * n ∧
    _roll ts'.1 = _roll ts.1.
Proof.
  induction n as [|n IH]; intros ts p ts' p' Heq Hrun.
  - injection Hrun as <- <-. split_and!; [done|lia|done].
  - apply draft_rounds_step in Hrun as (ts1 & p1 & ts2 & p2 & H1 & H2 & Hrest).
    destruct (tied_first _ _ Heq) as [Hmax Hmin]. rewrite Hmax in H1.
    apply choose_on_Returns in H1 as (_ & _ & Hr11 & Hr12 & Hl11 & _ & Hsame1 & _).
    destruct (tied_first ts1.1 ts1.2) as [_ Hmin1]; [congruence|]. rewrite Hmin1 in H2.
    apply choose_on_Returns in H2 as (_ & _ & Hr21 & Hr22 & Hl21 & _ & Hsame2 & _).
    destruct (IH ts2 p2 ts' p') as (Hsame & Hlen & Hroll); [congruence|done|].
    split_and!; [congruence|lia|congruence].
Qed.

(** X18: with two equal rolls, [max] and [min] both return the first team:
    the draft loop then makes every call on that team, which gains two
    heroes a round, and leaves the second team as it was.  The tie loop
    before it is what makes the two teams draft in turn. *)
Theorem draft_tied (rng : nat → nat) (n : nat) (ts ts' : Team * Team) (p p' : Proc) :
  _roll ts.1 = _roll ts.2 →
  draft_rounds rng n ts p = (Returns ts', p') →
  max_is_second ts.1 ts.2 = false ∧ min_is_second ts.1 ts.2 = false ∧
  ts'.2 = ts.2 ∧
  length (_heroes ts'.1) = length (_heroes ts.1) + 2 * n.
Proof.
  intros Heq Hrun. destruct (tied_first _ _ Heq) as [Hmax Hmin].
  destruct (draft_rounds_tied rng n ts p ts' p' Heq Hrun) as (? & ? & _).
  by split_and!.
Qed.

Lemma draft_tied_witness :
  ∃ ts' p',
    draft_rounds counting 1 (ada, bea) (at_start loaded) = (Returns ts', p') ∧
    ts'.2 = bea ∧ length (_heroes ts'.1) = 0 + 2 * 1.
Proof.
  destruct (draft_tied counting 1 (ada, bea)
              (returned (draft_rounds counting 1 (ada, bea) (at_start loaded)).1 (ada, bea))
              (at_start loaded)
              (draft_rounds counting 1 (ada, bea) (at_start loaded)).2)
    as (_ & _ & H1 & H2).
  - reflexivity.
  - vm_compute. reflexivity.
  - eexists _, _. split; [vm_compute; reflexivity|]. split; [exact H1|exact H2].
Defined.

(** ** The prompt about the class Special *)

Lemma pbind_Returns {A B} (m : P A) (k : A → P B) p a p' :
  m p = (Returns a, p') → pbind m k p = k a p'.
Proof. unfold pbind. by intros ->. Qed.

Lemma pbind_Raises {A B} (m : P A) (k : A → P B) p e p' :
  m p = (Raises e, p') → pbind m k p = (Raises e, p').
Proof. unfold pbind. by intros ->. Qed.

Lemma pbind_EOF {A B} (m : P A) (k : A → P B) p p' :
  m p = (RaisesEOF, p') → pbind m k p = (RaisesEOF, p').
Proof. unfold pbind. by intros ->. Qed.

Lemma says_yes_guard (l : string) :
  bool_decide (lower l = "y") || bool_decide (lower l = "yes") = true ↔ says_yes l.
Proof. unfold says_yes. by rewrite orb_true_iff, !bool_decide_eq_true. Qed.

Lemma says_no_guard (l : string) :
  bool_decide (lower l = "n") || bool_decide (lower l = "no") = true ↔ says_no l.
Proof. unfold says_no. by rewrite orb_true_iff, !bool_decide_eq_true. Qed.

Lemma says_yes_not_no l : says_yes l → ¬ says_no l.
Proof. unfold says_yes, says_no. intros [-> | ->] [?|?]; done. Qed.

Lemma ask_special_turns_unfold n l ls out c cv :
  ask_special_turns n (mkProc (l :: ls) out c cv)
  = (if bool_decide (lower l = "y") || bool_decide (lower l = "yes")
     then pret tt
     else if bool_decide (lower l = "n") || bool_decide (lower l = "no")
     then call disallow_special
     else (stmt print special_retry ;;
           stmt print "" ;;
           match n with
           | 0 => pret tt
           | S n' => ask_special_turns n'
           end)%py) (mkProc ls (out ++ [special_prompt]) c cv).
Proof. by destruct n. Qed.

Lemma ask_special_eof n out c cv :
  ask_special_turns n (mkProc [] out c cv)
  = (RaisesEOF, mkProc [] (out ++ [special_prompt]) c cv).
Proof. by destruct n. Qed.

Lemma ask_special_turns_spec (n : nat) (p : Proc) :
  length (stdin p) ≤ n →
  ∃ skipped p',
    Forall (λ l, ¬ says_yes l ∧ ¬ says_no l) skipped ∧
    length (stdout p') = length (stdout p) + 3 * length skipped + 1 ∧
    cursor p' = cursor p ∧
    ((∃ answer,
        ask_special_turns n p = (Returns tt, p') ∧
        stdin p = skipped ++ answer :: stdin p' ∧
        (says_yes answer ∧ cls p' = cls p ∨
         says_no answer ∧ cls p' = (disallow_special (cls p)).2)) ∨
     (ask_special_turns n p = (RaisesEOF, p') ∧
      stdin p = skipped ∧ stdin p' = [] ∧ cls p' = cls p)).
Proof.
  destruct p as [ls out c cv]. simpl. revert n out.
  induction ls as [|l ls IH]; intros n out Hlen.
  - exists [], (mkProc [] (out ++ [special_prompt]) c cv). rewrite ask_special_eof.
    split_and!; [done|simpl; rewrite length_app; simpl; lia|done|by right].
  - rewrite ask_special_turns_unfold.
    destruct (decide (says_yes l)) as [Hy|Hy].
    { apply says_yes_guard in Hy as Hg. rewrite Hg.
      exists [], (mkProc ls (out ++ [special_prompt]) c cv).
      split_and!; [done|simpl; rewrite length_app; simpl; lia|done|].
      left. exists l. split_and!; [done..|by left]. }
    rewrite <-says_yes_guard in Hy. apply not_true_is_false in Hy as Hg. rewrite Hg.
    rewrite says_yes_guard in Hy.
    destruct (decide (says_no l)) as [Hn|Hn].
    { apply says_no_guard in Hn as Hg'. rewrite Hg'.
      exists [], (mkProc ls (out ++ [special_prompt]) c (disallow_special cv).2).
      split_and!; [done|simpl; rewrite length_app; simpl; lia|done|].
      left. exists l. split_and!; [|done|by right].
      unfold call. cbn [cls]. rewrite disallow_special_spec. done. }
    rewrite <-says_no_guard in Hn. apply not_true_is_false in Hn as Hg'. rewrite Hg'.
    rewrite says_no_guard in Hn.
    destruct n as [|n]; [simpl in Hlen; lia|].
    destruct (IH n (out ++ [special_prompt; special_retry +:+ nl; "" +:+ nl]))
      as (skipped & p' & Hsk & Hout & Hcur & Hres); [simpl in Hlen; lia|].
    assert ((stmt print special_retry ;; stmt print "" ;; ask_special_turns n)%py
              (mkProc ls (out ++ [special_prompt]) c cv)
            = ask_special_turns n
                (mkProc ls (out ++ [special_prompt; special_retry +:+ nl; "" +:+ nl]) c cv))
      as ->.
    { unfold pbind, print, written. simpl. by rewrite <-!(assoc_L (++)). }
    exists (l :: skipped), p'. split_and!.
    + by apply Forall_cons.
    + rewrite Hout, length_app. simpl. lia.
    + done.
    + destruct Hres as [(answer & -> & Hin & Hans)|(-> & Hin & ? & ?)].
      * left. exists answer. by rewrite Hin.
      * right. by rewrite Hin.
Qed.

(** X19: the prompt about the class Special passes over every line that is
    neither a yes nor a no (three writes for each) and acts on the first
    line that is one, in any mix of upper and lower case: on a yes the class
    variables stay as they are, on a no they are what [disallow_special]
    makes of them.  It ends with [EOFError] when there is no such line, the
    class variables untouched; no exception of the module comes out of it
    and no draw is taken. *)
Theorem ask_special_first_answer (p : Proc) :
  ∃ skipped p',
    Forall (λ l, ¬ says_yes l ∧ ¬ says_no l) skipped ∧
    length (stdout p') = length (stdout p) + 3 * length skipped + 1 ∧
    cursor p' = cursor p ∧
    ((∃ answer,
        ask_special p = (Returns tt, p') ∧
        stdin p = skipped ++ answer :: stdin p' ∧
        (says_yes answer ∧ cls p' = cls p ∨
         says_no answer ∧
         cls p' = with_possible_heroes (Dict.del "Special" <$> _possible_heroes (cls p))
                    (with_allow_special_class false (cls p)))) ∨
     (ask_special p = (RaisesEOF, p') ∧
      stdin p = skipped ∧ stdin p' = [] ∧ cls p' = cls p)).
Proof.
  destruct (ask_special_turns_spec (length (stdin p)) p (le_n _))
    as (skipped & p' & Hsk & Hout & Hcur & Hres).
  exists skipped, p'. split_and!; [done..|].
  destruct Hres as [(answer & Hrun & Hin & Hans)|?]; [left|by right].
  exists answer. split_and!; [done..|].
  by rewrite disallow_special_spec in Hans.
Qed.

Example ask_special_mixed_case :
  ∃ p', ask_special (mkProc ["maybe"; "No"; "x"] [] 0 loaded) = (Returns tt, p') ∧
        stdin p' = ["x"] ∧ _allow_special_class (cls p') = false ∧
        (Dict.get "Special" <$> _possible_heroes (cls p')) = Some None ∧
        (Dict.get "Special" <$> _possible_heroes loaded) ≠ Some None.
Proof. eexists. split_and!; [vm_compute; reflexivity..|by vm_compute]. Qed.

(** ** The script as a whole *)

Lemma configure_spec fs0 p :
  cls p = class_body →
  match configure fs0 p with
  | (Returns _, p') =>
      isfile fs0 hero_path = true ∧ cursor p' = cursor p ∧
      ∃ size allow,
        size_allowed size ∧
        (∃ bad good rest,
           stdin p = bad ++ good :: rest ∧ Forall (λ l, ¬ is_size l) bad ∧
           (good = "3" ∧ size = 3%Z ∨ good = "4" ∧ size = 4%Z)) ∧
        cls p' = {| _hero_file_path := Some hero_path; _possible_heroes := None;
                    _team_size := size; _allow_special_class := allow |}
  | (Raises e, _) => e = FileNotFoundError ∧ isfile fs0 hero_path = false
  | (RaisesEOF, _) => isfile fs0 hero_path = true
  end.
Proof.
  destruct p as [ls out c cv]. simpl. intros ->. unfold configure.
  rewrite (pbind_Returns (print welcome) _ _ tt _ eq_refl).
  rewrite (pbind_Returns (print "") _ _ tt _ eq_refl).
  destruct (isfile fs0 hero_path) eqn:Hfile.
  - erewrite pbind_Returns; last first.
    { unfold call. cbn [cls written]. by rewrite set_hero_file_present. }
    set (p1 := with_cls _ _).
    assert (cursor p1 = c) as Hc1 by done.
    destruct (ask_team_size_turns_spec (length (stdin p1)) p1 (le_n _))
      as (bad & p2 & Hbad & _ & Hc2 & Hres); [by left|].
    destruct Hres as [(good & size & Hrun & Hin & Hsize & Hcls2)|(Hrun & _ & _ & _)].
    + erewrite pbind_Returns by exact Hrun.
      destruct (ask_special_turns_spec (length (stdin p2)) p2 (le_n _))
        as (skipped & p3 & _ & _ & Hc3 & Hres).
      destruct Hres as [(answer & Hrun3 & _ & Hans)|(Hrun3 & _ & _ & _)].
      * unfold ask_special. rewrite Hrun3. split_and!; [done|by rewrite Hc3, Hc2, Hc1|].
        assert (size_allowed size) by (destruct Hsize as [[_ ->]|[_ ->]]; [by left|by right]).
        assert (∃ bad good rest,
                  ls = bad ++ good :: rest ∧ Forall (λ l, ¬ is_size l) bad ∧
                  (good = "3" ∧ size = 3%Z ∨ good = "4" ∧ size = 4%Z)) as Htyped.
        { by exists bad, good, (stdin p2). }
        destruct Hans as [[_ ->]|[_ ->]]; rewrite ?disallow_special_spec, Hcls2;
          eexists _, _; split_and!; try done.
      * unfold ask_special. by rewrite Hrun3.
    + by erewrite pbind_EOF by exact Hrun.
  - erewrite pbind_Raises; [done|].
    unfold call. cbn [cls written]. by rewrite set_hero_file_missing.
Qed.

Lemma load_lines_Err d ls e : load_lines d ls = Err e → e = IndexError.
Proof.
  revert d. induction ls as [|l ls IH]; intros d; [done|].
  cbn [load_lines]. destruct (Str.contains ", " l) eqn:Hl.
  - destruct (load_line_delimited d l Hl) as (field & _ & ->). apply IH.
  - rewrite (load_line_undelimited d l Hl). by intros [= <-].
Qed.

Lemma load_heroes_Err_set fs cv e cv' :
  _hero_file_path cv = Some hero_path →
  load_heroes fs cv = (Err e, cv') →
  (e = FileNotFoundError ∧ isfile fs hero_path = false) ∨
  (e = IndexError ∧
   ∃ text, read_file fs hero_path = Some text ∧
           Exists (λ l, Str.contains ", " l = false) (Str.lines text)).
Proof.
  intros Hp. unfold load_heroes, isfile. rewrite Hp. cbn [path_unset].
  rewrite bool_decide_eq_false_2 by done. cbn.
  destruct (read_file fs hero_path) as [text|]; [|intros [= <- _]; by left].
  destruct (load_lines [] (Str.lines text)) as [d|e'] eqn:Hl; [done|].
  intros [= <- _]. right. split; [by apply load_lines_Err in Hl|].
  exists text. split; [done|].
  destruct (decide (Forall (λ l, Str.contains ", " l = true) (Str.lines text)))
    as [Hall|Hex].
  - destruct (load_lines_delimited [] _ Hall) as [d Hd]. congruence.
  - apply not_Forall_Exists in Hex; [|apply _].
    eapply Exists_impl; [done|]. simpl. intros l Hl'. by destruct (Str.contains ", " l).
Qed.

Lemma del_del k (d : Catalog) : Dict.del k (Dict.del k d) = Dict.del k d.
Proof.
  apply del_absent. rewrite keys_del. by intros [Hk _]%list_elem_of_filter.
Qed.

Lemma new_team_spec fs rng name p :
  match new_team fs rng name p with
  | (Returns t, p') =>
      Team_init fs name (rng (cursor p)) (cls p) = (Ok t, cls p') ∧
      cursor p' = S (cursor p) ∧ stdin p' = stdin p ∧ stdout p' = stdout p
  | (Raises e, _) => ∃ cv', Team_init fs name (rng (cursor p)) (cls p) = (Err e, cv')
  | (RaisesEOF, _) => False
  end.
Proof.
  unfold new_team.
  destruct (Team_init fs name (rng (cursor p)) (cls p)) as [[t|e] cv']; [done|by eexists].
Qed.

Lemma make_teams_spec fs1 rng p :
  _hero_file_path (cls p) = Some hero_path →
  _possible_heroes (cls p) = None →
  match make_teams fs1 rng p with
  | (Returns ts, p') =>
      ∃ text d0,
        read_file fs1 hero_path = Some text ∧
        load_lines [] (Str.lines text) = Ok d0 ∧
        let d := if _allow_special_class (cls p) then d0 else Dict.del "Special" d0 in
        cls p' = with_possible_heroes (Some d) (cls p) ∧
        _name ts.1 ≠ _name ts.2 ∧
        roll_ok ts.1 ∧ roll_ok ts.2 ∧
        _heroes ts.1 = [] ∧ _heroes ts.2 = [] ∧
        _possible_classes ts.1 = Dict.keys d ∧ _possible_classes ts.2 = Dict.keys d
  | (Raises e, _) =>
      (e = FileNotFoundError ∧ isfile fs1 hero_path = false) ∨
      (e = IndexError ∧
       ∃ text, read_file fs1 hero_path = Some text ∧
               Exists (λ l, Str.contains ", " l = false) (Str.lines text))
  | (RaisesEOF, _) => True
  end.
Proof.
  intros Hpath Hnone. unfold make_teams. unfold pbind at 1.
  pose proof (ask_names_spec p) as Hnames.
  destruct (ask_names p) as [[[a b]|e|] p1]; [|done..].
  destruct Hnames as (Hab & Hcls1 & _ & _).
  unfold pbind at 1. cbn [fst snd].
  pose proof (new_team_spec fs1 rng a p1) as Hnew1.
  destruct (new_team fs1 rng a p1) as [[t1|e|] p2]; [| |done].
  - destruct Hnew1 as (Hnew1 & _). rewrite Hcls1 in Hnew1.
    pose proof (Team_init_spec fs1 a (rng (cursor p1)) (cls p)) as Hinit.
    rewrite Hnew1 in Hinit.
    destruct Hinit as (d0 & [Hd0|[_ Hload]] & Hcv1 & Ht1); [congruence|].
    apply load_heroes_Ok_inv in Hload as (q & text & d0' & Hq & Hread & Hlines & Hd).
    assert (q = hero_path) as -> by congruence.
    assert (d0' = d0) as ->.
    { apply (f_equal _possible_heroes) in Hd. cbn in Hd. congruence. }
    set (d := if _allow_special_class (cls p) then d0 else Dict.del "Special" d0) in *.
    unfold pbind at 1.
    pose proof (new_team_spec fs1 rng b p2) as Hnew2.
    destruct (new_team fs1 rng b p2) as [[t2|e|] p3]; [| |done].
    + destruct Hnew2 as (Hnew2 & _).
      pose proof (Team_init_spec fs1 b (rng (cursor p2)) (cls p2)) as Hinit.
      rewrite Hnew2 in Hinit.
      destruct Hinit as (d1 & [Hd1|[Hd1 _]] & Hcv2 & Ht2);
        [|by rewrite Hcv1 in Hd1].
      assert (d1 = d) as ->.
      { rewrite Hcv1 in Hd1. cbn in Hd1. congruence. }
      assert ((if _allow_special_class (cls p2) then d else Dict.del "Special" d) = d)
        as Hsame.
      { rewrite Hcv1. unfold d. cbn. destruct (_allow_special_class (cls p)); [done|].
        apply del_del. }
      rewrite Hsame in Hcv2, Ht2.
      unfold pret. exists text, d0. cbn [cls fst snd]. fold d.
      split_and!; [done|done| |by subst|subst; apply randint_d20|subst; apply randint_d20
                  |by subst|by subst|by subst|by subst].
      rewrite Hcv2, Hcv1. by destruct (cls p).
    + destruct Hnew2 as [cv' Hnew2].
      pose proof (Team_init_spec fs1 b (rng (cursor p2)) (cls p2)) as Hinit.
      rewrite Hnew2 in Hinit.
      destruct Hinit as (_ & Hd1 & _). by rewrite Hcv1 in Hd1.
  - destruct Hnew1 as [cv' Hnew1]. rewrite Hcls1 in Hnew1.
    pose proof (Team_init_spec fs1 a (rng (cursor p1)) (cls p)) as Hinit.
    rewrite Hnew1 in Hinit.
    destruct Hinit as (_ & _ & Hload). by apply load_heroes_Err_set in Hload.
Qed.

Lemma classes_known_same cv t d k hs' :
  classes_known cv t → _possible_heroes cv = Some d →
  classes_known (with_possible_heroes (Some (Dict.set k hs' d)) cv) t.
Proof.
  intros Hk Hd. destruct t as [name roll classes heroes].
  by apply (classes_known_set cv {| _name := name; _roll := roll;
                                    _possible_classes := classes;
                                    _heroes := heroes |} d k hs' classes).
Qed.

Lemma choose_on_known b rng ts p :
  classes_known (cls p) ts.1 → classes_known (cls p) ts.2 →
  match choose_on b rng ts p with
  | (Returns ts1, p1) => classes_known (cls p1) ts1.1 ∧ classes_known (cls p1) ts1.2
  | (Raises e, _) => e = IndexError
  | (RaisesEOF, _) => False
  end.
Proof.
  destruct p as [ls out c cv], ts as [t1 t2]. cbn [cls fst snd]. intros Hk1 Hk2.
  assert (∀ t e, classes_known cv t → draw (rng c) (rng (S c)) cv t = Err e →
                 e = IndexError) as Herr.
  { intros t e (d & Hd & Hkeys) [(_ & Hnone & _)|[(_ & d' & key & Hd' & Hin & Hg)|[-> _]]]%draw_Err_inv;
      [congruence| |done].
    assert (d' = d) as -> by congruence. destruct (Hkeys key Hin) as [? ?]. congruence. }
  unfold choose_on. cbn [cls cursor stdin stdout fst snd].
  destruct b; cbn [cls cursor stdin stdout fst snd].
  - destruct (draw (rng c) (rng (S c)) cv t2) as [[k h]|e] eqn:Hdraw.
    + destruct (choose_hero_Ok _ _ _ _ _ _ Hdraw)
        as (d & hs & hs' & classes' & Hd & Hg & Hrm & Hcl & ->).
      unfold with_cls. cbn [cls fst snd]. split.
      * by apply classes_known_same.
      * apply (classes_known_set cv t2 d k hs' classes'); [done..|].
        by apply list_remove_Ok in Hcl as (_ & _ & _ & ?).
    + rewrite (choose_hero_Err _ _ _ _ _ Hdraw). eapply Herr; [|exact Hdraw]. done.
  - destruct (draw (rng c) (rng (S c)) cv t1) as [[k h]|e] eqn:Hdraw.
    + destruct (choose_hero_Ok _ _ _ _ _ _ Hdraw)
        as (d & hs & hs' & classes' & Hd & Hg & Hrm & Hcl & ->).
      unfold with_cls. cbn [cls fst snd]. split.
      * apply (classes_known_set cv t1 d k hs' classes'); [done..|].
        by apply list_remove_Ok in Hcl as (_ & _ & _ & ?).
      * by apply classes_known_same.
    + rewrite (choose_hero_Err _ _ _ _ _ Hdraw). eapply Herr; [|exact Hdraw]. done.
Qed.

Lemma draft_rounds_known rng n :
  ∀ ts p,
    classes_known (cls p) ts.1 → classes_known (cls p) ts.2 →
    match draft_rounds rng n ts p with
    | (Returns _, _) => True
    | (Raises e, _) => e = IndexError
    | (RaisesEOF, _) => False
    end.
Proof.
  induction n as [|n IH]; intros ts p Hk1 Hk2; [done|].
  cbn [draft_rounds]. unfold pbind at 1.
  pose proof (choose_on_known (max_is_second ts.1 ts.2) rng ts p Hk1 Hk2) as H1.
  destruct (choose_on _ rng ts p) as [[ts1|e|] p1]; [|done..].
  destruct H1 as [Hk11 Hk12]. unfold pbind at 1.
  pose proof (choose_on_known (min_is_second ts1.1 ts1.2) rng ts1 p1 Hk11 Hk12) as H2.
  destruct (choose_on _ rng ts1 p1) as [[ts2|e|] p2] eqn:E2; [|done..].
  destruct H2 as [Hk21 Hk22]. by apply IH.
Qed.

Lemma announce_spec ts p :
  ∃ p', announce ts p = (Returns tt, p') ∧
        cls p' = cls p ∧ cursor p' = cursor p ∧ stdin p' = stdin p.
Proof. by eexists. Qed.

Lemma show_teams_spec ts p :
  ∃ p', show_teams ts p = (Returns tt, p') ∧
        cls p' = cls p ∧ cursor p' = cursor p ∧ stdin p' = stdin p ∧
        stdout p' = stdout p ++ ["" +:+ nl; Team_str ts.1 +:+ nl;
                                 "" +:+ nl; Team_str ts.2 +:+ nl].
Proof.
  eexists. split; [reflexivity|]. split_and!; [done..|].
  unfold written. cbn [stdout]. by rewrite <-!(assoc_L (++)).
Qed.

Lemma turns_are_drafts first rng n : ∀ c, Forall is_draft (turns first rng c n).
Proof.
  induction n as [|n IH]; intros c; [done|].
  cbn [turns]. apply Forall_cons_2; [done|]. apply Forall_cons_2; [done|]. apply IH.
Qed.

Lemma run_grown (tr : list op) (s : Session) (i : nat) (t : Team) :
  teams s !! i = Some t → ∃ t', teams (run tr s) !! i = Some t' ∧ grown t t'.
Proof.
  revert s t. induction tr as [|o tr IH]; intros s t Hi.
  - exists t. split; [done|apply grown_refl].
  - destruct (exec_grown o s i t Hi) as (t1 & Hi1 & Hg1).
    destruct (IH _ _ Hi1) as (t' & Hi' & Hg').
    exists t'. split; [done|]. by apply (grown_trans t t1 t').
Qed.

Lemma main_spec fs0 fs1 rng fuel p :
  cls p = class_body →
  match main fs0 fs1 rng fuel p with
  | (Returns (Some ts), p') =>
      ∃ text d0 d size,
        read_file fs1 hero_path = Some text ∧
        load_lines [] (Str.lines text) = Ok d0 ∧
        (d = d0 ∨ d = Dict.del "Special" d0) ∧
        (∃ bad good rest,
           stdin p = bad ++ good :: rest ∧ Forall (λ l, ¬ is_size l) bad ∧
           (good = "3" ∧ size = 3%Z ∨ good = "4" ∧ size = 4%Z)) ∧
        length (_heroes ts.1) = Z.to_nat size ∧
        length (_heroes ts.2) = Z.to_nat size ∧
        _name ts.1 ≠ _name ts.2 ∧ _roll ts.1 ≠ _roll ts.2 ∧
        roll_ok ts.1 ∧ roll_ok ts.2 ∧
        _heroes ts.1 ++ _heroes ts.2 ++ catalog_heroes (_possible_heroes (cls p'))
          ≡ₚ catalog_heroes (Some d) ∧
        ∃ out, stdout p' = out ++ ["" +:+ nl; Team_str ts.1 +:+ nl;
                                   "" +:+ nl; Team_str ts.2 +:+ nl]
  | (Returns None, _) => True
  | (Raises e, _) =>
      (e = FileNotFoundError ∧
       (isfile fs0 hero_path = false ∨ isfile fs1 hero_path = false)) ∨
      (e = IndexError ∧ ∃ text, read_file fs1 hero_path = Some text)
  | (RaisesEOF, _) => True
  end.
Proof.
  intros Hcls. unfold main. unfold pbind at 1.
  pose proof (configure_spec fs0 p Hcls) as Hconf.
  destruct (configure fs0 p) as [[[]|e|] p1];
    [|destruct Hconf as [-> Hf0]; left; split; [done|by left]|done].
  destruct Hconf as (_ & _ & size & allow & Hsize & Htyped & Hcls1).
  unfold pbind at 1.
  pose proof (make_teams_spec fs1 rng p1) as Hmake. rewrite Hcls1 in Hmake.
  specialize (Hmake eq_refl eq_refl).
  destruct (make_teams fs1 rng p1) as [[ts0|e|] p2]; [| |done].
  2:{ destruct Hmake as [[-> Hf1]|[-> (text & Hread & _)]].
      - left. split; [done|by right].
      - right. split; [done|by exists text]. }
  destruct Hmake as (text & d0 & Hread & Hlines & Hcls2 & Hnames & Hr1 & Hr2
                     & Hh1 & Hh2 & Hc1 & Hc2).
  cbn in Hcls2, Hc1, Hc2.
  set (d := if allow then d0 else Dict.del "Special" d0) in *.
  unfold pbind at 1.
  pose proof (break_tie_spec rng fuel ts0 p2) as Htie.
  destruct (break_tie rng fuel ts0 p2) as [[[ts1|]|e|] p3]; [|done..].
  destruct Htie as (Hrolls & (Hn1 & Hcl1 & Hhs1) & (Hn2 & Hcl2 & Hhs2) & Hcls3 & _
                    & k & _ & _ & _ & Hk0 & Hkpos).
  destruct (announce_spec ts1 p3) as (p4 & Hann & Hcls4 & _).
  unfold pbind at 1. rewrite Hann.
  assert (cls p4 = {| _hero_file_path := Some hero_path; _possible_heroes := Some d;
                      _team_size := size; _allow_special_class := allow |}) as Hcv4.
  { by rewrite Hcls4, Hcls3, Hcls2. }
  assert (∀ t, _possible_classes t = Dict.keys d → classes_known (cls p4) t) as Hknown.
  { intros t Ht. exists d. rewrite Hcv4. split; [done|].
    intros key. rewrite Ht. unfold Dict.keys.
    intros ((key' & hs) & -> & Hin)%list_elem_of_fmap. cbn [fst].
    destruct (Dict.get key' d) eqn:Hg; [done|].
    apply get_None in Hg. destruct Hg. unfold Dict.keys.
    apply list_elem_of_fmap. by exists (key', hs). }
  unfold pbind at 1, draft at 1.
  pose proof (draft_rounds_known rng (Z.to_nat (get_team_size (cls p4))) ts1 p4) as Hdk.
  destruct (draft_rounds rng _ ts1 p4) as [[ts2|e|] p5] eqn:Hdraft.
  - clear Hdk.
    destruct (draft_rounds_distinct rng _ ts1 p4 ts2 p5 Hrolls Hdraft)
      as (Hrun & _ & Hl1 & Hl2 & Hro1 & Hro2 & _).
    pose proof (drafts_move_heroes _ (pair_session (cls p4) ts1)
                  (turns_are_drafts (position (max_is_second ts1.1 ts1.2)) rng
                     (Z.to_nat (get_team_size (cls p4))) (cursor p4))) as Hmove.
    cbn zeta in Hmove. rewrite Hrun in Hmove.
    destruct Hmove as [Hdrafted Hcat].
    assert (_name ts2.1 = _name ts1.1 ∧ _name ts2.2 = _name ts1.2) as [Hnm1 Hnm2].
    { split.
      - destruct (run_grown (turns (position (max_is_second ts1.1 ts1.2)) rng (cursor p4)
                               (Z.to_nat (get_team_size (cls p4))))
                    (pair_session (cls p4) ts1) 0 ts1.1 eq_refl) as (t' & Ht' & Hg & _).
        rewrite Hrun in Ht'. cbn in Ht'. by injection Ht' as <-.
      - destruct (run_grown (turns (position (max_is_second ts1.1 ts1.2)) rng (cursor p4)
                               (Z.to_nat (get_team_size (cls p4))))
                    (pair_session (cls p4) ts1) 1 ts1.2 eq_refl) as (t' & Ht' & Hg & _).
        rewrite Hrun in Ht'. cbn in Ht'. by injection Ht' as <-. }
    destruct (show_teams_spec ts2 p5) as (p6 & Hshow & Hcls6 & _ & _ & Hout).
    unfold pbind at 1. rewrite Hshow. unfold pret.
    assert (roll_ok ts1.1 ∧ roll_ok ts1.2) as [Hok1 Hok2].
    { destruct k as [|k].
      - destruct Hk0 as [-> _]; done.
      - assert (0 < S k) as Hpos by lia. apply Hkpos in Hpos.
        unfold rolls_at in Hpos. injection Hpos as Hp1 Hp2.
        unfold roll_ok. rewrite Hp1, Hp2. split; apply randint_d20. }
    exists text, d0, d, size. split_and!; try done.
    + unfold d. destruct allow; [by left|by right].
    + rewrite Hl1, Hhs1, Hh1, Hcv4. done.
    + rewrite Hl2, Hhs2, Hh2, Hcv4. done.
    + congruence.
    + congruence.
    + unfold roll_ok. by rewrite Hro1.
    + unfold roll_ok. by rewrite Hro2.
    + cbn [pair_session teams cvars] in Hdrafted, Hcat.
      unfold drafted in Hdrafted. cbn in Hdrafted.
      rewrite Hhs1, Hhs2, Hh1, Hh2 in Hdrafted. cbn in Hdrafted.
      rewrite !app_nil_r in Hdrafted.
      assert (_possible_heroes (cls p4) = Some d) as Hd4 by by rewrite Hcv4.
      rewrite Hd4 in Hcat.
      rewrite Hcls6, (assoc_L (++)), Hdrafted. by rewrite Hcat.
    + by eexists.
  - right. split; [|by exists text].
    apply Hdk; apply Hknown; [by rewrite Hcl1|by rewrite Hcl2].
  - exfalso. apply Hdk; apply Hknown; [by rewrite Hcl1|by rewrite Hcl2].
Qed.

Lemma catalog_heroes_del_sublist (d : Catalog) k :
  catalog_heroes (Some (Dict.del k d)) `sublist_of` catalog_heroes (Some d).
Proof.
  unfold catalog_heroes. induction d as [|[k' hs] d IH]; [done|].
  cbn [Dict.del]. destruct (decide (k = k')); csimpl.
  - by apply sublist_inserts_l.
  - by apply sublist_app.
Qed.

(** X20: the script started on the class as it is defined, in a file
    system whose hero file, when it is there, reads as text (a file that
    [open] cannot open or decode is outside the model).  The exceptions of
    the module that come out of it are [FileNotFoundError], only when the
    hero file is missing (as the path is set, or as the first team loads
    it), and [IndexError], only once the file has been read (a line of it
    has no delimiter, or a team finds no hero left to draft); the
    [ValueError] of [set_team_size], [KeyError], [TypeError] and
    [PathNotSetError] never come out of it.  When it returns with the tie
    broken, the size is that of the first line of the input that is [3] or
    [4], each team has exactly that many heroes, the two names differ, the
    two rolls differ and lie in 1..20, and the last four writes are an empty
    line and a team, twice. *)
Theorem main_outcome (fs0 fs1 : FileSystem) (rng : nat → nat) (fuel : nat) (p : Proc) :
  cls p = class_body →
  match main fs0 fs1 rng fuel p with
  | (Returns (Some ts), p') =>
      (∃ bad good rest size,
         stdin p = bad ++ good :: rest ∧ Forall (λ l, ¬ is_size l) bad ∧
         (good = "3" ∧ size = 3 ∨ good = "4" ∧ size = 4) ∧
         length (_heroes ts.1) = size ∧ length (_heroes ts.2) = size) ∧
      _name ts.1 ≠ _name ts.2 ∧ _roll ts.1 ≠ _roll ts.2 ∧
      roll_ok ts.1 ∧ roll_ok ts.2 ∧
      ∃ out, stdout p' = out ++ ["" +:+ nl; Team_str ts.1 +:+ nl;
                                 "" +:+ nl; Team_str ts.2 +:+ nl]
  | (Returns None, _) => True
  | (Raises e, _) =>
      (e = FileNotFoundError ∧
       (isfile fs0 hero_path = false ∨ isfile fs1 hero_path = false)) ∨
      (e = IndexError ∧ ∃ text, read_file fs1 hero_path = Some text)
  | (RaisesEOF, _) => True
  end.
Proof.
  intros Hcls. pose proof (main_spec fs0 fs1 rng fuel p Hcls) as Hspec.
  destruct (main fs0 fs1 rng fuel p) as [[[ts|]|e|] p']; [|done..].
  destruct Hspec as (text & d0 & d & size & _ & _ & _ & (bad & good & rest & Hin & Hbad & Hgs)
                     & Hl1 & Hl2 & Hn & Hr & Hok1 & Hok2 & _ & Hout).
  split_and!; [|done..].
  exists bad, good, rest, (Z.to_nat size). split_and!; [done|done| |done|done].
  destruct Hgs as [[-> ->]|[-> ->]]; [by left|by right].
Qed.

Lemma main_outcome_witness :
  ∃ ts p',
    main arena_disk arena_disk counting 0 (mkProc keyboard [] 0 class_body)
    = (Returns (Some ts), p') ∧
    _name ts.1 ≠ _name ts.2 ∧ _roll ts.1 ≠ _roll ts.2 ∧
    length (_heroes ts.1) = length (_heroes ts.2).
Proof.
  pose proof (main_outcome arena_disk arena_disk counting 0
                (mkProc keyboard [] 0 class_body) eq_refl) as Hmain.
  destruct (main arena_disk arena_disk counting 0 (mkProc keyboard [] 0 class_body))
    as [[[ts|]|e|] p'] eqn:Hrun; [|vm_compute in Hrun; discriminate Hrun..].
  clear Hrun.
  destruct Hmain as ((bad & good & rest & size & _ & _ & _ & Hl1 & Hl2) & Hn & Hr & _).
  exists ts, p'. split; [reflexivity|].
  split; [exact Hn|]. split; [exact Hr|]. rewrite Hl1, Hl2. reflexivity.
Defined.

(** X21: when the hero names of the file are all different, no hero is on
    the two teams at once nor twice on one, every hero of a team is the
    hero of a line of the file, and no hero of a team is left in the
    catalog the script ends with. *)
Theorem main_teams_share_no_hero (fs0 fs1 : FileSystem) (rng : nat → nat) (fuel : nat)
    (p p' : Proc) (ts : Team * Team) (text : string) :
  cls p = class_body →
  read_file fs1 hero_path = Some text →
  NoDup (hero_field <$> Str.lines text) →
  main fs0 fs1 rng fuel p = (Returns (Some ts), p') →
  NoDup (_heroes ts.1 ++ _heroes ts.2) ∧
  (∀ h, h ∈ _heroes ts.1 ++ _heroes ts.2 → h ∈ hero_field <$> Str.lines text) ∧
  (∀ h, h ∈ _heroes ts.1 ++ _heroes ts.2 →
        h ∉ catalog_heroes (_possible_heroes (cls p'))).
Proof.
  intros Hcls Hread Hnd Hrun.
  pose proof (main_spec fs0 fs1 rng fuel p Hcls) as Hspec. rewrite Hrun in Hspec.
  destruct Hspec as (text' & d0 & d & size & Hread' & Hlines & Hd & _ & _ & _ & _ & _
                     & _ & _ & Hperm & _).
  assert (text' = text) as -> by congruence.
  destruct (load_lines_shape [] (Str.lines text) d0 Hlines) as (_ & _ & Hd0);
    [apply NoDup_nil_2|done|].
  cbn in Hd0.
  assert (catalog_heroes (Some d) `sublist_of` catalog_heroes (Some d0)) as Hsub.
  { destruct Hd as [-> | ->]; [done|apply catalog_heroes_del_sublist]. }
  assert (NoDup (catalog_heroes (Some d0))) as Hnd0 by by rewrite Hd0.
  assert (NoDup (catalog_heroes (Some d))) as Hndd by by eapply sublist_NoDup.
  rewrite <-Hperm, (assoc_L (++)) in Hndd.
  apply NoDup_app in Hndd as (Hteams & Hdisj & _).
  split_and!; [done| |done].
  intros h Hh. rewrite <-Hd0. eapply elem_of_sublist; [|exact Hsub].
  rewrite <-Hperm, (assoc_L (++)). apply elem_of_app. by left.
Qed.

Lemma main_teams_share_no_hero_witness :
  ∃ ts p',
    main arena_disk arena_disk counting 0 (mkProc keyboard [] 0 class_body)
    = (Returns (Some ts), p') ∧
    NoDup (_heroes ts.1 ++ _heroes ts.2).
Proof.
  eexists _, _. split; [vm_compute; reflexivity|].
  refine (proj1 (main_teams_share_no_hero arena_disk arena_disk counting 0
                   (mkProc keyboard [] 0 class_body) _ _ arena_txt _ _ _ _)).
  - reflexivity.
  - reflexivity.
  - refine (bool_decide_unpack (NoDup (hero_field <$> Str.lines arena_txt)) _).
    vm_compute. exact I.
  - vm_compute. reflexivity.
Defined.

(** ** Printing a team *)

Section rendering.

Local Arguments Ascii.eqb : simpl never.

Lemma lines_join hs :
  hs ≠ [] → Forall (λ h, Str.mem Str.newline h = false) hs →
  Str.lines_go "" (join nl hs +:+ nl) = (λ h, h +:+ nl) <$> hs.
Proof.
  induction hs as [|h hs IH]; [done|]. intros _ Hhs.
  apply Forall_cons in Hhs as [Hh Hhs]. destruct hs as [|h' hs].
  - cbn [join]. transitivity (Str.lines_go "" (h +:+ nl +:+ "")).
    { by rewrite (str_app_nil_r nl). }
    by rewrite lines_go_cut by done.
  - change (join nl (h :: h' :: hs)) with (h +:+ nl +:+ join nl (h' :: hs)).
    rewrite !str_app_assoc. rewrite lines_go_cut by done.
    rewrite str_app_nil_l, fmap_cons. f_equal. by apply IH.
Qed.

End rendering.

(** X22: what [print(team)] writes reads back line by line as the header
    with the name and then the heroes, one a line in the order they were
    drafted, as long as neither the name nor a hero holds a newline; a team
    without heroes gives the header and an empty line. *)
Theorem Team_str_lines (t : Team) :
  Str.mem Str.newline (_name t) = false →
  Forall (λ h, Str.mem Str.newline h = false) (_heroes t) →
  Str.lines (Team_str t +:+ nl)
  = (_name t +:+ "'s team:" +:+ nl)
    :: ((λ h, h +:+ nl) <$> (if decide (_heroes t = []) then [""] else _heroes t)).
Proof.
  intros Hname Hhs. unfold Str.lines, Team_str.
  assert (Str.mem Str.newline (_name t +:+ "'s team:") = false) as Hhead.
  { rewrite mem_app, Hname. reflexivity. }
  rewrite !str_app_assoc.
  rewrite <-(str_app_assoc (_name t) "'s team:").
  rewrite lines_go_cut by done.
  rewrite str_app_nil_l, (str_app_assoc (_name t) "'s team:"). f_equal.
  destruct (decide (_heroes t = [])) as [->|Hne]; [reflexivity|].
  by apply lines_join.
Qed.

Lemma Team_str_lines_witness :
  Str.lines (Team_str {| _name := "ada"; _roll := 7; _possible_classes := ["Mage"];
                         _heroes := ["Ann"; "Cid"] |} +:+ nl)
  = ["ada's team:" +:+ nl; "Ann" +:+ nl; "Cid" +:+ nl].
Proof.
  apply (Team_str_lines {| _name := "ada"; _roll := 7; _possible_classes := ["Mage"];
                           _heroes := ["Ann"; "Cid"] |}).
  - reflexivity.
  - repeat constructor.
Defined.

(** ** Calls of the script that raise *)

(** X23: a constructor or a draft call of the script that raises leaves the
    process as it was: class variables, input, output, and the generator,
    from which no draw was taken.  The constructor raises only as the load
    of the catalog does, the draft call only as the draw of the team
    does. *)
Theorem raising_call_changes_nothing (fs : FileSystem) (rng : nat → nat)
    (team_name : string) (second : bool) (ts : Team * Team) (p p' : Proc) (e : exn) :
  (new_team fs rng team_name p = (Raises e, p') →
   p' = p ∧ _possible_heroes (cls p) = None ∧ load_heroes fs (cls p) = (Err e, cls p)) ∧
  (choose_on second rng ts p = (Raises e, p') →
   p' = p ∧
   draw (rng (cursor p)) (rng (S (cursor p))) (cls p) (if second then ts.2 else ts.1)
   = Err e).
Proof.
  destruct p as [ls out c cv]. split.
  - unfold new_team. cbn [cls cursor stdin stdout].
    pose proof (Team_init_spec fs team_name (rng c) cv) as Hspec.
    destruct (Team_init fs team_name (rng c) cv) as [[t|e'] cv']; [done|].
    destruct Hspec as (-> & Hnone & Hload). by intros [= <- <-].
  - unfold choose_on. cbn [cls cursor stdin stdout].
    destruct (draw (rng c) (rng (S c)) cv (if second then ts.2 else ts.1))
      as [[k h]|e'] eqn:Hdraw.
    + by destruct (choose_hero_Ok _ _ _ _ _ _ Hdraw) as (? & ? & ? & ? & _ & _ & _ & _ & ->).
    + rewrite (choose_hero_Err _ _ _ _ _ Hdraw). by intros [= <- <-].
Qed.

Lemma raising_call_changes_nothing_witness :
  choose_on false counting (spent_team, bea) (at_start spent_vars)
  = (Raises IndexError, at_start spent_vars) ∧
  new_team no_disk counting "ada" (at_start configured)
  = (Raises FileNotFoundError, at_start configured).
Proof.
  destruct (raising_call_changes_nothing no_disk counting "ada" false (spent_team, bea)
              (at_start spent_vars)
              (choose_on false counting (spent_team, bea) (at_start spent_vars)).2
              IndexError) as [_ Hdraft].
  destruct (raising_call_changes_nothing no_disk counting "ada" false (spent_team, bea)
              (at_start configured)
              (new_team no_disk counting "ada" (at_start configured)).2
              FileNotFoundError) as [Hnew _].
  destruct Hdraft as [Hp _]; [reflexivity|].
  destruct Hnew as [Hq _]; [reflexivity|].
  split.
  - rewrite <-Hp at 2. reflexivity.
  - rewrite <-Hq at 2. reflexivity.
Defined.
